(** * A verified model of the innovation recommendation engine

    The development follows the two engine modules of the repository:

    - [app/utils/text_processing.py]: the text normalizer
      ([preprocess_text], [batch_preprocess_text]) and its stopword table;
    - [app/services/recommendation_service.py]: the [RecommendationEngine]
      class (model cache, rebuild, retrieval, statistics).

    Python values are embedded as follows.  A [str] is a list of code
    points below 256 (the Latin-1 range), with the character classes that
    Python's [re] and [str] methods use on that range.  Instance attributes
    of the engine are the fields of a record that is threaded, together with
    the outside world (clock, document store), through a state-and-exception
    monad.  What the code prints is not part of the model.  Similarity scores
    are binary64 numbers, held as the rationals they denote: retrieval compares
    them and rounds them as NumPy does.  The clock moves on while the store
    answers a query.  Library calls whose code is not part of the repository
    (Sastrawi, NLTK, scikit-learn, NumPy's array functions, pydantic) are
    parameters of the sections that use them. *)

From Stdlib Require Import ZArith QArith Qround Qpower Qabs Lqa Lia Ascii String List Bool
  Sorted.
From Stdlib Require Reals Lra.
From stdpp Require Import base option list gmap strings.
Import ListNotations.

Set Default Proof Using "Type".

(** * Python strings and exceptions *)

Abbreviation str := (list ascii).

(** A string literal of the source. *)
Definition py (s : string) : str := list_ascii_of_string s.

Inductive exn : Type :=
  | StemmerError      (* raised by the Sastrawi stemmer or its factory *)
  | ResourceError     (* a resource (NLTK corpus) is not available *)
  | StoreError        (* raised by the document store client *)
  | LibraryError      (* raised inside scikit-learn or NumPy *)
  | TypeError         (* subscripting None *)
  | IndexError        (* positional index out of bounds *)
  | ValidationError.  (* the response model rejects its fields *)

Inductive result (A : Type) : Type :=
  | Ok (a : A)
  | Raise (e : exn).
Arguments Ok {A} a.
Arguments Raise {A} e.

#[global] Instance result_ret : MRet result := fun A a => Ok a.
#[global] Instance result_bind : MBind result := fun A B f m =>
  match m with Ok a => f a | Raise e => Raise e end.
#[global] Instance result_fmap : FMap result := fun A B f m =>
  match m with Ok a => Ok (f a) | Raise e => Raise e end.

(** [try: m except Exception: h] for code without state. *)
Definition try_except {A} (m : result A) (h : exn -> A) : A :=
  match m with Ok a => a | Raise e => h e end.

(** A filter that keeps every element. *)
Lemma filter_all {A} (f : A -> bool) (l : list A) :
  Forall (fun x => f x = true) l -> List.filter f l = l.
Proof.
  induction 1 as [|x l Hx _ IH]; [reflexivity|].
  simpl. now rewrite Hx, IH.
Qed.

(** * app/utils/text_processing.py *)

Module Text.

(** ** Character classes on code points 0..255 *)

Definition code (c : ascii) : N := N_of_ascii c.

Definition between (lo hi : N) (c : ascii) : bool :=
  ((lo <=? code c) && (code c <=? hi))%N.

(** [str.isspace], which is also the class [\s] of [re] and the separator
    set of [str.strip()] and [str.split()]. *)
Definition is_space (c : ascii) : bool :=
  between 9 13 c || between 28 32 c || (code c =? 133)%N || (code c =? 160)%N.

(** The class [\d]. *)
Definition is_digit (c : ascii) : bool := between 48 57 c.

(** The class [\w]: alphanumeric code points and the underscore. *)
Definition is_word (c : ascii) : bool :=
  between 48 57 c || between 65 90 c || (code c =? 95)%N || between 97 122 c
  || (code c =? 170)%N || between 178 179 c || (code c =? 181)%N
  || between 185 186 c || between 188 190 c || between 192 214 c
  || between 216 246 c || between 248 255 c.

(** The class [[0-9a-fA-F]]. *)
Definition is_hex (c : ascii) : bool :=
  between 48 57 c || between 97 102 c || between 65 70 c.

(** [str.lower] on one code point. *)
Definition lower_char (c : ascii) : ascii :=
  if between 65 90 c || between 192 214 c || between 216 222 c
  then ascii_of_N (code c + 32) else c.

(** A character that the cleaning steps keep as it is: a word character
    that is no digit and has no other lower-case form. *)
Definition plain_char (c : ascii) : bool :=
  is_word c && negb (is_digit c) && Ascii.eqb (lower_char c) c.

Definition backslash : ascii := "\"%char.
Definition space : ascii := " "%char.

Definition is_backslash (c : ascii) : bool := (code c =? 92)%N.

(** ** String methods *)

Definition lower (s : str) : str := map lower_char s.

Fixpoint lstrip (s : str) : str :=
  match s with
  | [] => []
  | c :: r => if is_space c then lstrip r else s
  end.

Definition rstrip (s : str) : str := rev (lstrip (rev s)).

(** [s.strip()] *)
Definition strip (s : str) : str := rstrip (lstrip s).

(** [s.split()]: the maximal runs of non-whitespace characters. *)
Fixpoint split (s : str) : list str :=
  match s with
  | [] => []
  | c :: r =>
      if is_space c then split r
      else match r with
           | [] => [[c]]
           | d :: _ =>
               if is_space d then [c] :: split r
               else match split r with
                    | w :: ws => (c :: w) :: ws
                    | [] => [[c]]
                    end
           end
  end.

(** [" ".join(tokens)] *)
Fixpoint join (tokens : list str) : str :=
  match tokens with
  | [] => []
  | [t] => t
  | t :: ts => t ++ space :: join ts
  end.

(** ** The substitutions of [preprocess_text] *)

(** [re.sub(r"\\[tn]", " ", text)] *)
Fixpoint sub_escaped_tn (s : str) : str :=
  match s with
  | [] => []
  | c :: r =>
      if is_backslash c then
        match r with
        | d :: r' =>
            if ((code d =? 116) || (code d =? 110))%N
            then space :: sub_escaped_tn r'
            else c :: sub_escaped_tn r
        | [] => [c]
        end
      else c :: sub_escaped_tn r
  end.

(** [re.sub(r"\\u[0-9a-fA-F]{4}", " ", text)] *)
Fixpoint sub_escaped_unicode (s : str) : str :=
  match s with
  | [] => []
  | c :: r =>
      if is_backslash c then
        match r with
        | u :: h1 :: h2 :: h3 :: h4 :: r' =>
            if (code u =? 117)%N && is_hex h1 && is_hex h2 && is_hex h3 && is_hex h4
            then space :: sub_escaped_unicode r'
            else c :: sub_escaped_unicode r
        | _ => c :: sub_escaped_unicode r
        end
      else c :: sub_escaped_unicode r
  end.

(** [re.sub(r"\\+", "", text)] *)
Definition sub_backslashes (s : str) : str :=
  List.filter (fun c => negb (is_backslash c)) s.

(** [re.sub(r"\d+", "", text)] *)
Definition sub_digits (s : str) : str :=
  List.filter (fun c => negb (is_digit c)) s.

(** [re.sub(r"[^\w\s]", "", text)] *)
Definition sub_punctuation (s : str) : str :=
  List.filter (fun c => is_word c || is_space c) s.

(** [re.sub(r"\s+", " ", text)]: each run of whitespace becomes one space,
    written when the last character of the run is read. *)
Fixpoint sub_whitespace (s : str) : str :=
  match s with
  | [] => []
  | c :: r =>
      if is_space c then
        match r with
        | d :: _ => if is_space d then sub_whitespace r else space :: sub_whitespace r
        | [] => [space]
        end
      else c :: sub_whitespace r
  end.

(** ** Stopwords *)

(** The manual fallback table of the module. *)
Definition INDONESIAN_STOPWORDS : list str := map py [
    "ada"; "adalah"; "adanya"; "adapun"; "agak"; "agaknya"; "agar"; "akan";
    "akankah"; "akhir"; "akhiri"; "akhirnya"; "aku"; "akulah"; "amat";
    "amatlah"; "anda"; "andalah"; "antar"; "antara"; "antaranya"; "apa";
    "apaan"; "apabila"; "apakah"; "apalagi"; "apatah"; "artinya"; "asal";
    "asalkan"; "atas"; "atau"; "ataukah"; "ataupun"; "awal"; "awalnya";
    "bagai"; "bagaikan"; "bagaimana"; "bagaimanakah"; "bagaimanapun";
    "bagi"; "bagian"; "bahkan"; "bahwa"; "bahwasanya"; "baik"; "bakal";
    "bakalan"; "balik"; "banyak"; "bapak"; "baru"; "bawah"; "beberapa";
    "begini"; "beginian"; "beginilah"; "beginikah"; "begitu"; "begitukah";
    "begitulah"; "begitupun"; "bekerja"; "belakang"; "belakangan"; "belum";
    "belumlah"; "benar"; "benarkah"; "benarlah"; "berada"; "berakhir";
    "berakhirlah"; "berakhirnya"; "berapa"; "berapakah"; "berapalah";
    "berapapun"; "berarti"; "berawal"; "berbagai"; "berdatangan"; "beri";
    "berikan"; "berikut"; "berikutnya"; "berjumlah"; "berkali"; "berkata";
    "berkehendak"; "berkeinginan"; "berkenaan"; "berlainan"; "berlalu";
    "berlangsung"; "berlebihan"; "bermacam"; "bermaksud"; "bermula";
    "bersama"; "bersedia"; "bersiap"; "bersoal"; "bertanya";
    "bertanya-tanya"; "berturut"; "berturut-turut"; "bertutur"; "berujar"; "berupa";
    "besar"; "betul"; "betulkah"; "biasa"; "biasanya"; "bila"; "bilakah";
    "bisa"; "bisakah"; "boleh"; "bolehkah"; "buat"; "bukan"; "bukankah";
    "bukanlah"; "bukannya"; "bulan"; "bung"; "cara"; "caranya"; "cukup";
    "cukupkah"; "cukuplah"; "cuma"; "dahulu"; "dalam"; "dan"; "dapat";
    "dari"; "daripada"; "datang"; "dekat"; "demi"; "demikian";
    "demikianlah"; "dengan"; "depan"; "di"; "dia"; "diakhiri";
    "diakhirinya"; "dialah"; "diantara"; "diantaranya"; "diberi";
    "diberikan"; "diberikannya"; "dibuat"; "dibuatnya"; "didapat";
    "didatangkan"; "digunakan"; "diibaratkan"; "diibaratkannya"; "diingat";
    "diingatkan"; "diinginkan"; "dijawab"; "dijelaskan"; "dijelaskannya";
    "dikarenakan"; "dikatakan"; "dikatakannya"; "dikerjakan"; "diketahui";
    "diketahuinya"; "dikira"; "dilakukan"; "dilalui"; "dilihat"; "dimaksud";
    "dimaksudkan"; "dimaksudkannya"; "dimaksudnya"; "diminta"; "dimintai";
    "dimisalkan"; "dimulai"; "dimulailah"; "dimulainya"; "dimungkinkan";
    "dini"; "dipastikan"; "diperbuat"; "diperbuatnya"; "dipergunakan";
    "diperkirakan"; "diperlihatkan"; "diperlukan"; "diperlukannya";
    "dipersoalkan"; "dipertanyakan"; "dipunyai"; "diri"; "dirinya";
    "disampaikan"; "disebut"; "disebutkan"; "disebutkannya"; "disini";
    "disinilah"; "ditambahkan"; "ditandaskan"; "ditanya"; "ditanyai";
    "ditanyakan"; "ditegaskan"; "ditujukan"; "ditunjuk"; "ditunjuki";
    "ditunjukkan"; "ditunjukkannya"; "ditunjuknya"; "dituturkan";
    "dituturkannya"; "diucapkan"; "diucapkannya"; "diungkapkan"; "dong";
    "dulu"; "empat"; "enggak"; "enggaknya"; "entah"; "entahlah"; "guna";
    "gunakan"; "hal"; "hampir"; "hanya"; "hanyalah"; "hari"; "harus";
    "haruslah"; "harusnya"; "hendak"; "hendaklah"; "hendaknya"; "hingga";
    "ia"; "ialah"; "ibarat"; "ibaratkan"; "ibaratnya"; "ibu"; "ikut";
    "ingat"; "ingat-ingat"; "ingin"; "inginkah"; "inginkan"; "ini";
    "inikah"; "inilah"; "itu"; "itukah"; "itulah"; "jadi"; "jadilah";
    "jadinya"; "jangan"; "jangankan"; "janganlah"; "jauh"; "jawab";
    "jawaban"; "jawabnya"; "jelas"; "jelaskan"; "jelaslah"; "jelasnya";
    "jika"; "jikalau"; "juga"; "jumlah"; "jumlahnya"; "justru"; "kala";
    "kalau"; "kalaulah"; "kalaupun"; "kalian"; "kami"; "kamilah"; "kamu";
    "kamulah"; "kan"; "kapan"; "kapankah"; "kapanpun"; "karena";
    "karenanya"; "kasus"; "kata"; "katakan"; "katakanlah"; "katanya"; "ke";
    "keadaan"; "kebetulan"; "kecil"; "kedua"; "keduanya"; "keinginan";
    "kelamaan"; "kelihatan"; "kelihatannya"; "keluar"; "kemana"; "kemari";
    "kemarin"; "kemudian"; "kenapa"; "kepada"; "kepadanya"; "kesampaian";
    "keseluruhan"; "keseluruhannya"; "ketika"; "ketika"; "kini"; "kinilah";
    "kira"; "kira-kira"; "kiranya"; "kita"; "kitalah"; "kok"; "kurang";
    "lagi"; "lagian"; "lah"; "lain"; "lainnya"; "lalu"; "lama"; "lamanya";
    "lanjut"; "lanjutnya"; "lebih"; "lewat"; "lima"; "luar"; "macam";
    "maka"; "makanya"; "makin"; "malah"; "malahan"; "mampu"; "mampukah";
    "mana"; "manakala"; "manalagi"; "masa"; "masalah"; "masalahnya";
    "masih"; "masihkah"; "masing"; "masing-masing"; "mau"; "maupun";
    "melainkan"; "melakukan"; "melalui"; "melihat"; "melihatnya"; "memang";
    "memastikan"; "memberi"; "memberikan"; "membuat"; "memerlukan";
    "memihak"; "meminta"; "memintakan"; "memisalkan"; "memperbuat";
    "mempergunakan"; "memperkirakan"; "memperlihatkan"; "mempersiapkan";
    "mempersoalkan"; "mempertanyakan"; "mempunyai"; "memulai";
    "memungkinkan"; "menaiki"; "menambah"; "menambahkan"; "menanti";
    "menantikan"; "menanya"; "menanyai"; "menanyakan"; "mendapat";
    "mendapatkan"; "mendatang"; "mendatangi"; "mendatangkan"; "menegaskan";
    "mengakhiri"; "mengapa"; "mengatakan"; "mengatakannya"; "mengenai";
    "mengerjakan"; "mengetahui"; "menggunakan"; "menghendaki";
    "mengibaratkan"; "mengibaratkannya"; "mengingat"; "mengingatkan";
    "menginginkan"; "mengira"; "mengucapkan"; "mengucapkannya";
    "mengungkapkan"; "menjadi"; "menjawab"; "menjelaskan"; "menuju";
    "menunjuk"; "menunjuki"; "menunjukkan"; "menunjuknya"; "menurut";
    "menuturkan"; "menyampaikan"; "menyangkut"; "menyatakan"; "menyebutkan";
    "menyeluruh"; "menyiapkan"; "merasa"; "mereka"; "merekalah";
    "merupakan"; "meski"; "meskipun"; "minta"; "mirip"; "misal"; "misalkan";
    "misalnya"; "mula"; "mulai"; "mulailah"; "mulanya"; "mungkin";
    "mungkinkah"; "nah"; "naik"; "namun"; "nanti"; "nantinya"; "nyaris";
    "oleh"; "olehnya"; "pada"; "padahal"; "padanya"; "pak"; "paling";
    "panjang"; "pantas"; "para"; "pasti"; "pastilah"; "penting";
    "pentingnya"; "per"; "percuma"; "perlu"; "perlukah"; "perlunya";
    "pernah"; "pernahkah"; "pertama"; "pertama-tama"; "pertanyaan";
    "pertanyakan"; "pihak"; "pihaknya"; "pukul"; "pula"; "pun"; "punya";
    "punyakah"; "rah"; "rasa"; "rasanya"; "rata"; "rupanya"; "saat";
    "saatnya"; "saja"; "sajalah"; "saling"; "sama"; "sama-sama"; "sambil";
    "sampai"; "sampai-sampai"; "sampaikan"; "sana"; "sangat"; "sangatlah";
    "sani"; "satu"; "saya"; "sayalah"; "se"; "sebab"; "sebabnya"; "sebagai";
    "sebagaimana"; "sebagainya"; "sebagian"; "sebaik"; "sebaik-baiknya";
    "sebaiknya"; "sebaliknya"; "sebanyak"; "sebegini"; "sebegitu";
    "sebelum"; "sebelumnya"; "sebenarnya"; "seberapa"; "sebesar";
    "sebetulnya"; "sebisanya"; "sebuah"; "sebut"; "sebutlah"; "sebutnya";
    "secara"; "secukupnya"; "sedang"; "sedangkan"; "sedemikian"; "sedikit";
    "sedikitnya"; "seenaknya"; "segala"; "segalanya"; "segera";
    "seharusnya"; "sehingga"; "seingat"; "sejak"; "sejauh"; "sejenak";
    "sejumlah"; "sekadar"; "sekadarnya"; "sekali"; "sekali-kali";
    "sekalian"; "sekaligus"; "sekalipun"; "sekarang"; "sekarang"; "sekecil";
    "seketika"; "sekiranya"; "sekitar"; "sekitarnya"; "sekurang-kurangnya";
    "sekurangnya"; "sela"; "selain"; "selaku"; "selama"; "selama-lamanya";
    "selamanya"; "selanjutnya"; "seluruh"; "seluruhnya"; "semacam";
    "semakin"; "semampu"; "semampunya"; "semasa"; "semasih"; "semata";
    "semata-mata"; "semaunya"; "sementara"; "semisal"; "semisalnya";
    "sempat"; "semua"; "semuanya"; "semula"; "sendiri"; "sendirian";
    "sendirinya"; "seolah"; "seolah-olah"; "seorang"; "sepanjang";
    "sepantasnya"; "sepantasnyalah"; "seperlunya"; "seperti"; "sepertinya";
    "sepihak"; "sering"; "seringnya"; "serta"; "serupa"; "sesaat"; "sesama";
    "sesampai"; "sesegera"; "sesekali"; "seseorang"; "sesuatu";
    "sesuatunya"; "sesudah"; "sesudahnya"; "setelah"; "setempat";
    "setengah"; "seterusnya"; "setiap"; "setiba"; "setibanya";
    "setidak-tidaknya"; "setidaknya"; "setinggi"; "seusai"; "sewajarnya"; "sewaktu";
    "siap"; "siapa"; "siapakah"; "siapapun"; "sih"; "sini"; "sinilah";
    "soal"; "soalnya"; "suatu"; "sudah"; "sudahkah"; "sudahlah"; "supaya";
    "tadi"; "tadinya"; "tahu"; "tahun"; "tak"; "tambah"; "tambahnya";
    "tampak"; "tampaknya"; "tandas"; "tandasnya"; "tanpa"; "tanya";
    "tanyakan"; "tanyanya"; "tapi"; "tegas"; "tegasnya"; "telah"; "tempat";
    "tengah"; "tentang"; "tentu"; "tentulah"; "tentunya"; "tepat";
    "terakhir"; "terasa"; "terbanyak"; "terdahulu"; "terdapat"; "terdiri";
    "terhadap"; "terhadapnya"; "teringat"; "teringat-ingat"; "terjadi";
    "terjadilah"; "terjadinya"; "terkira"; "terlalu"; "terlebih";
    "terlihat"; "termasuk"; "ternyata"; "tersampaikan"; "tersebut";
    "tersebutlah"; "tertentu"; "tertuju"; "terus"; "terutama"; "tetap";
    "tetapi"; "tiap"; "tiba"; "tiba-tiba"; "tidak"; "tidakkah"; "tidaklah";
    "tiga"; "tinggi"; "toh"; "tunjuk"; "turut"; "tutur"; "tuturnya"; "ucap";
    "ucapnya"; "ujar"; "ujarnya"; "umum"; "umumnya"; "ungkap"; "ungkapnya";
    "untuk"; "usah"; "usai"; "waduh"; "wah"; "wahai"; "waktu"; "waktunya";
    "walau"; "walaupun"; "wong"; "yaitu"; "yakin"; "yakni"; "yang" ]%string.

Definition str_eqb (a b : str) : bool := bool_decide (a = b).

(** [word in stop_words] *)
Definition mem (word : str) (stop_words : list str) : bool :=
  existsb (str_eqb word) stop_words.

Section Normalizer.

(** The outside resources: [stopwords.words("indonesian")] of NLTK, which
    raises when the corpus is not installed, and the Sastrawi stemmer,
    whose factory and whose [stem] method may raise. *)
Variable nltk_stopwords : result (list str).
Variable create_stemmer : result (str -> result str).

Definition get_indonesian_stopwords : list str :=
  try_except nltk_stopwords (fun _ => INDONESIAN_STOPWORDS).

(** The function attribute caches the first value; the resources do not
    change during a run, so every call sees that value. *)
Definition get_cached_stopwords : list str := get_indonesian_stopwords.

Definition get_stemmer : result (str -> result str) := create_stemmer.

(** Steps 2 to 5 of [preprocess_text]: lower case, escape sequences,
    digits, punctuation, whitespace. *)
Definition clean (text : str) : str :=
  let text := lower text in
  let text := sub_escaped_tn text in
  let text := sub_escaped_unicode text in
  let text := sub_backslashes text in
  let text := sub_digits text in
  let text := sub_punctuation text in
  strip (sub_whitespace text).

Definition is_long (token : str) : bool := (1 <? length token)%nat.

Definition nonblank (s : str) : bool :=
  match strip s with [] => false | _ => true end.

Definition tokenize (text : str) : list str :=
  List.filter (fun token => nonblank token && is_long token) (split text).

(** Step 8: the whole comprehension sits in one [try]; when the factory or
    any single [stem] call raises, [tokens] keeps its old value. *)
Definition stem_tokens (tokens : list str) : list str :=
  try_except (stemmer ← get_stemmer; mapM stemmer tokens) (fun _ => tokens).

Definition preprocess_text (text : str) (stop_words : option (list str))
  : result str :=
  match text with
  | [] => Ok []
  | _ =>
    let text := strip text in
    match text with
    | [] => Ok []
    | _ =>
      let tokens := tokenize (clean text) in
      match tokens with
      | [] => Ok []
      | _ =>
        let stop_words := default get_cached_stopwords stop_words in
        let tokens := List.filter (fun word => negb (mem word stop_words)) tokens in
        match tokens with
        | [] => Ok []
        | _ =>
          let tokens := stem_tokens tokens in
          let tokens :=
            List.filter (fun token =>
              match token with [] => false | _ => is_long token end) tokens in
          Ok (join tokens)
        end
      end
    end
  end.

(** [batch_preprocess_text]: the stemmer is fetched outside the loop, so a
    failing factory aborts the batch; a failing item yields [""]. *)
Definition batch_preprocess_text (texts : list str)
    (stop_words : option (list str)) : result (list str) :=
  let stop_words := default get_cached_stopwords stop_words in
  _ ← get_stemmer;
  Ok (map (fun text =>
             try_except (preprocess_text text (Some stop_words)) (fun _ => []))
          texts).

(** [preprocess_combined_features]: a missing or empty field counts as
    [""]; a weight above 1 repeats the category, each copy followed by a
    space. *)
Definition preprocess_combined_features (deskripsi kategori : option str)
    (kategori_weight : Z) : result str :=
  let deskripsi := default [] deskripsi in
  let kategori := default [] kategori in
  let combined :=
    if (1 <? kategori_weight)%Z
    then deskripsi ++ space :: concat (replicate (Z.to_nat kategori_weight) (kategori ++ [space]))
    else deskripsi ++ space :: kategori in
  preprocess_text combined None.

Definition process_innovation_text (deskripsi kategori : option str) : result str :=
  preprocess_combined_features deskripsi kategori 1.

(** ** Tokens of a run *)

(** The tokens that reach the stemming step. *)
Definition candidates (text : str) (stop_words : option (list str)) : list str :=
  List.filter (fun word => negb (mem word (default get_cached_stopwords stop_words)))
    (tokenize (clean (strip text))).

(** The tokens that are joined into the result. *)
Definition final_tokens (text : str) (stop_words : option (list str)) : list str :=
  List.filter (fun token => match token with [] => false | _ => is_long token end)
    (stem_tokens (candidates text stop_words)).

(** The stemming step as the specification words it: each token on its
    own, the failing ones passed through. *)
Definition stem_each_token (tokens : list str) : list str :=
  match get_stemmer with
  | Ok stemmer => map (fun token => try_except (stemmer token) (fun _ => token)) tokens
  | Raise _ => tokens
  end.

(** A token that a second run leaves alone: plain characters only, longer
    than one character, no stopword, and returned by the stemming step as
    it is. *)
Definition settled (stop_words : list str) (token : str) : Prop :=
  forallb plain_char token = true /\ is_long token = true
  /\ mem token stop_words = false /\ stem_tokens [token] = [token].

(** A non-empty run of characters that are no whitespace. *)
Definition is_token (t : str) : Prop :=
  t <> [] /\ Forall (fun c => is_space c = false) t.

(** The characters of a join of plain tokens. *)
Definition tidy_char (c : ascii) : Prop := plain_char c = true \/ c = space.

(** A stopword that some token can be equal to. *)
Definition reachable_stopword (word : str) : bool :=
  forallb plain_char word && is_long word.

(** ** The stemming step *)

Lemma stem_tokens_nil : stem_tokens [] = [].
Proof. unfold stem_tokens, get_stemmer. now destruct create_stemmer. Qed.

Lemma preprocess_text_final text stop_words :
  preprocess_text text stop_words = Ok (join (final_tokens text stop_words)).
Proof.
  unfold preprocess_text, final_tokens, candidates.
  destruct text as [|c text]; [simpl; now rewrite stem_tokens_nil|].
  destruct (strip (c :: text)) as [|c' text']; [simpl; now rewrite stem_tokens_nil|].
  destruct (tokenize _) as [|t ts]; [simpl; now rewrite stem_tokens_nil|].
  destruct (List.filter _ (t :: ts)) as [|w ws]; [now rewrite stem_tokens_nil|].
  reflexivity.
Qed.

Lemma mapM_raises (stemmer : str -> result str) tokens token e :
  In token tokens -> stemmer token = Raise e ->
  exists e', mapM stemmer tokens = Raise e'.
Proof.
  intros Hin Hraise. induction tokens as [|t ts IH]; [contradiction|].
  cbn [mapM]. destruct (stemmer t) as [u|e0] eqn:Ht; simpl; [|now exists e0].
  destruct Hin as [->|Hin]; [congruence|].
  destruct (IH Hin) as [e' He']. rewrite He'. now exists e'.
Qed.

(** C7, as the code has it.  The call always returns a string.  When the
    stemmer raises on one of the tokens that reach the stemming step, the
    step keeps every token of the call unstemmed, not only the failing
    one. *)
Theorem stemmer_failure_keeps_all_tokens text stop_words :
  (exists out, preprocess_text text stop_words = Ok out)
  /\ (forall stemmer token e,
        get_stemmer = Ok stemmer ->
        In token (candidates text stop_words) -> stemmer token = Raise e ->
        stem_tokens (candidates text stop_words) = candidates text stop_words
        /\ preprocess_text text stop_words
           = Ok (join (List.filter is_long (candidates text stop_words)))).
Proof.
  split; [rewrite preprocess_text_final; eauto|].
  intros stemmer token e Hs Hin Hraise.
  assert (Hkeep : stem_tokens (candidates text stop_words) = candidates text stop_words).
  { unfold stem_tokens. rewrite Hs. simpl.
    destruct (mapM_raises stemmer _ token e Hin Hraise) as [e' ->]. reflexivity. }
  split; [exact Hkeep|].
  rewrite preprocess_text_final. unfold final_tokens. rewrite Hkeep.
  do 2 f_equal. apply filter_ext. intros [|c t]; reflexivity.
Qed.

(** ** Running the normalizer on its own output *)

Lemma plain_char_facts c :
  plain_char c = true ->
  is_space c = false /\ is_backslash c = false /\ is_digit c = false
  /\ is_word c = true /\ lower_char c = c.
Proof.
  destruct c as [[] [] [] [] [] [] [] []]; vm_compute; intros H;
    try discriminate H; repeat split; reflexivity.
Qed.

Lemma join_cons_cons t t' ts : join (t :: t' :: ts) = t ++ space :: join (t' :: ts).
Proof. reflexivity. Qed.

Lemma join_head t ts :
  Forall is_token (t :: ts) ->
  exists c r, join (t :: ts) = c :: r /\ is_space c = false.
Proof.
  intros H. apply Forall_cons in H as [[Hne Ht] _].
  destruct t as [|c t]; [contradiction|]. apply Forall_cons in Ht as [Hc _].
  destruct ts as [|t' ts]; [now exists c, t|].
  rewrite join_cons_cons. now exists c, (t ++ space :: join (t' :: ts)).
Qed.

Lemma join_last t ts :
  Forall is_token (t :: ts) ->
  exists c r, rev (join (t :: ts)) = c :: r /\ is_space c = false.
Proof.
  revert t. induction ts as [|t' ts IH]; intros t H.
  - apply Forall_cons in H as [[Hne Ht] _]. simpl.
    destruct (rev t) as [|c r] eqn:Hrev.
    + apply (f_equal (@rev ascii)) in Hrev. rewrite rev_involutive in Hrev. contradiction.
    + exists c, r. split; [reflexivity|].
      rewrite Forall_forall in Ht. apply Ht, list_elem_of_In, in_rev.
      rewrite Hrev. now left.
  - apply Forall_cons in H as [_ H]. destruct (IH t' H) as (c & r & Hrev & Hc).
    rewrite join_cons_cons, rev_app_distr.
    change (rev (space :: join (t' :: ts))) with (rev (join (t' :: ts)) ++ [space]).
    rewrite Hrev. exists c, ((r ++ [space]) ++ rev t). split; [reflexivity|exact Hc].
Qed.

Lemma strip_join ts : Forall is_token ts -> strip (join ts) = join ts.
Proof.
  intros H. destruct ts as [|t ts]; [reflexivity|].
  destruct (join_head _ _ H) as (c & r & Hj & Hc).
  destruct (join_last _ _ H) as (c' & r' & Hrev & Hc').
  unfold strip, rstrip. rewrite Hj. simpl. rewrite Hc. rewrite <- Hj, Hrev.
  simpl. rewrite Hc'. now rewrite <- Hrev, rev_involutive.
Qed.

Lemma sub_whitespace_app t rest :
  Forall (fun c => is_space c = false) t ->
  sub_whitespace (t ++ rest) = t ++ sub_whitespace rest.
Proof.
  induction 1 as [|c t Hc _ IH]; [reflexivity|].
  simpl. now rewrite Hc, IH.
Qed.

Lemma sub_whitespace_join ts : Forall is_token ts -> sub_whitespace (join ts) = join ts.
Proof.
  induction ts as [|t ts IH]; intros H; [reflexivity|].
  pose proof H as Hall. apply Forall_cons in H as [[_ Ht] Hts].
  destruct ts as [|t' ts].
  - simpl. rewrite <- (app_nil_r t) at 1. rewrite sub_whitespace_app by exact Ht.
    apply app_nil_r.
  - rewrite join_cons_cons, sub_whitespace_app by exact Ht. f_equal.
    destruct (join_head _ _ Hts) as (c & r & Hj & Hc).
    specialize (IH Hts). rewrite Hj in *.
    change (sub_whitespace (space :: c :: r))
      with (if is_space c then sub_whitespace (c :: r) else space :: sub_whitespace (c :: r)).
    now rewrite Hc, IH.
Qed.

Lemma split_app t rest :
  is_token t ->
  rest = [] \/ (exists sp rest', rest = sp :: rest' /\ is_space sp = true) ->
  split (t ++ rest) = t :: split rest.
Proof.
  intros [Hne Ht] Hrest. induction Ht as [|c t Hc Ht IH]; [contradiction|].
  destruct t as [|d t].
  - simpl. rewrite Hc. destruct Hrest as [->|(sp & rest' & -> & Hsp)]; [reflexivity|].
    now rewrite Hsp.
  - assert (IH' : split ((d :: t) ++ rest) = (d :: t) :: split rest)
      by (apply IH; discriminate).
    apply Forall_cons in Ht as [Hd _].
    change (split ((c :: d :: t) ++ rest))
      with (if is_space c then split ((d :: t) ++ rest)
            else if is_space d then [c] :: split ((d :: t) ++ rest)
                 else match split ((d :: t) ++ rest) with
                      | w :: ws => (c :: w) :: ws
                      | [] => [[c]]
                      end).
    now rewrite Hc, Hd, IH'.
Qed.

Lemma split_join ts : Forall is_token ts -> split (join ts) = ts.
Proof.
  induction ts as [|t ts IH]; intros H; [reflexivity|].
  apply Forall_cons in H as [Ht Hts]. destruct ts as [|t' ts].
  - simpl. rewrite <- (app_nil_r t) at 1. rewrite split_app; auto.
  - rewrite join_cons_cons, split_app; [|exact Ht|right; now exists space, (join (t' :: ts))].
    f_equal. change (split (space :: join (t' :: ts))) with (split (join (t' :: ts))).
    now apply IH.
Qed.

Lemma tidy_join ts :
  Forall (fun t => forallb plain_char t = true) ts -> Forall tidy_char (join ts).
Proof.
  assert (Htoken : forall t, forallb plain_char t = true -> Forall tidy_char t).
  { intros t Ht. apply Forall_forall. intros c Hc. left.
    rewrite forallb_forall in Ht. now apply Ht, list_elem_of_In. }
  induction 1 as [|t ts Ht Hts IH]; [constructor|].
  destruct ts as [|t' ts]; [now apply Htoken|].
  rewrite join_cons_cons. apply Forall_app. split; [now apply Htoken|].
  constructor; [now right|exact IH].
Qed.

Lemma tidy_char_facts c :
  tidy_char c ->
  is_backslash c = false /\ is_digit c = false
  /\ is_word c || is_space c = true /\ lower_char c = c.
Proof.
  intros [H| ->].
  - apply plain_char_facts in H as (_ & Hb & Hd & Hw & Hl). now rewrite Hw.
  - repeat split; reflexivity.
Qed.

Lemma sub_escaped_tn_plain s :
  Forall (fun c => is_backslash c = false) s -> sub_escaped_tn s = s.
Proof.
  induction 1 as [|c s Hc _ IH]; [reflexivity|]. simpl. now rewrite Hc, IH.
Qed.

Lemma sub_escaped_unicode_plain s :
  Forall (fun c => is_backslash c = false) s -> sub_escaped_unicode s = s.
Proof.
  induction 1 as [|c s Hc _ IH]; [reflexivity|]. simpl. now rewrite Hc, IH.
Qed.

Lemma clean_tidy s : Forall tidy_char s -> strip (sub_whitespace s) = s -> clean s = s.
Proof.
  intros Htidy Hws. unfold clean.
  assert (Hlower : lower s = s).
  { unfold lower. rewrite <- (map_id s) at 2. apply map_ext_Forall.
    eapply Forall_impl; [exact Htidy|]. intros c Hc.
    now apply tidy_char_facts in Hc as (_ & _ & _ & Hl). }
  assert (Hbs : Forall (fun c => is_backslash c = false) s).
  { eapply Forall_impl; [exact Htidy|]. intros c Hc.
    now apply tidy_char_facts in Hc as (Hb & _). }
  rewrite Hlower, (sub_escaped_tn_plain _ Hbs), (sub_escaped_unicode_plain _ Hbs).
  unfold sub_backslashes, sub_digits, sub_punctuation.
  rewrite (filter_all (fun c => negb (is_backslash c)) s).
  2:{ eapply Forall_impl; [exact Hbs|]. intros c Hc. simpl. now rewrite Hc. }
  rewrite (filter_all (fun c => negb (is_digit c)) s).
  2:{ eapply Forall_impl; [exact Htidy|]. intros c Hc. simpl.
      apply tidy_char_facts in Hc as (_ & Hd & _). now rewrite Hd. }
  rewrite (filter_all (fun c => is_word c || is_space c) s); [exact Hws|].
  eapply Forall_impl; [exact Htidy|]. intros c Hc.
  now apply tidy_char_facts in Hc as (_ & _ & Hw & _).
Qed.

Lemma settled_is_token stop_words t : settled stop_words t -> is_token t.
Proof.
  intros (Hplain & Hlong & _). split.
  - intros ->. discriminate Hlong.
  - apply Forall_forall. intros c Hc. rewrite forallb_forall in Hplain.
    now apply plain_char_facts, Hplain, list_elem_of_In.
Qed.

Lemma stem_tokens_settled tokens :
  Forall (fun t => stem_tokens [t] = [t]) tokens -> stem_tokens tokens = tokens.
Proof.
  unfold stem_tokens, get_stemmer.
  destruct create_stemmer as [stemmer|e]; simpl; [|reflexivity].
  intros H.
  assert (Hm : mapM stemmer tokens = Ok tokens \/ exists e, mapM stemmer tokens = Raise e).
  { induction H as [|t ts Ht _ IH]; [now left|].
    cbn [mapM] in *. destruct (stemmer t) as [u|e]; simpl in *; [|right; eauto].
    destruct IH as [->|[e ->]]; simpl; [|right; eauto].
    left. injection Ht as ->. reflexivity. }
  destruct Hm as [->|[e ->]]; reflexivity.
Qed.

Lemma final_tokens_settled tokens stop_words :
  Forall (settled (default get_cached_stopwords stop_words)) tokens ->
  final_tokens (join tokens) stop_words = tokens.
Proof.
  intros H.
  assert (Htok : Forall is_token tokens)
    by (eapply Forall_impl; [exact H|apply settled_is_token]).
  unfold final_tokens, candidates.
  rewrite (strip_join _ Htok), clean_tidy.
  2:{ apply tidy_join. eapply Forall_impl; [exact H|]. now intros t (Hp & _). }
  2:{ now rewrite (sub_whitespace_join _ Htok), (strip_join _ Htok). }
  unfold tokenize. rewrite (split_join _ Htok).
  rewrite (filter_all (fun token => nonblank token && is_long token) tokens).
  2:{ eapply Forall_impl; [exact H|]. intros t Ht.
      pose proof (settled_is_token _ _ Ht) as Htoken.
      destruct Ht as (_ & Hl & _). unfold nonblank.
      assert (Hstrip : strip t = t) by (apply (strip_join [t]); now constructor).
      rewrite Hstrip. destruct t; [now destruct Htoken|exact Hl]. }
  rewrite (filter_all _ tokens).
  2:{ eapply Forall_impl; [exact H|]. intros t (_ & _ & Hm & _). simpl. now rewrite Hm. }
  rewrite stem_tokens_settled.
  2:{ eapply Forall_impl; [exact H|]. now intros t (_ & _ & _ & Hs). }
  apply filter_all.
  eapply Forall_impl; [exact H|]. intros [|c t] (_ & Hl & _); [discriminate|exact Hl].
Qed.

(** C6, as the code has it.  A second run changes nothing when every token
    of the first result is settled: made of plain characters, no stopword,
    and a fixed point of the stemming step. *)
Theorem normalizer_idempotent_on_settled text stop_words :
  Forall (settled (default get_cached_stopwords stop_words)) (final_tokens text stop_words) ->
  exists out, preprocess_text text stop_words = Ok out
              /\ preprocess_text out stop_words = Ok out.
Proof.
  intros H. exists (join (final_tokens text stop_words)).
  split; [apply preprocess_text_final|].
  rewrite preprocess_text_final. now rewrite (final_tokens_settled _ _ H).
Qed.

(** ** What the cleaning steps leave *)

Lemma lower_char_idem c : lower_char (lower_char c) = lower_char c.
Proof. destruct c as [[] [] [] [] [] [] [] []]; vm_compute; reflexivity. Qed.

Lemma str_length_ind (P : str -> Prop) :
  (forall s, (forall s', (length s' < length s)%nat -> P s') -> P s) -> forall s, P s.
Proof.
  intros H s. remember (length s) as n eqn:Hn. revert s Hn.
  induction n as [n IH] using lt_wf_ind. intros s ->.
  apply H. intros s' Hlt. now apply (IH (length s')).
Qed.

Lemma Forall_sub_escaped_tn (Q : ascii -> Prop) s :
  Q space -> Forall Q s -> Forall Q (sub_escaped_tn s).
Proof.
  intros Hsp. induction s as [s IH] using str_length_ind. intros Hs.
  destruct s as [|c r]; [constructor|].
  apply Forall_cons in Hs as [Hc Hr]. simpl.
  destruct (is_backslash c).
  - destruct r as [|d r']; [now repeat constructor|].
    apply Forall_cons in Hr as [Hd Hr'].
    destruct ((code d =? 116) || (code d =? 110))%N.
    + constructor; [exact Hsp|]. apply IH; [simpl; lia|exact Hr'].
    + constructor; [exact Hc|]. apply IH; [simpl; lia|now constructor].
  - constructor; [exact Hc|]. apply IH; [simpl; lia|exact Hr].
Qed.

Lemma Forall_sub_escaped_unicode (Q : ascii -> Prop) s :
  Q space -> Forall Q s -> Forall Q (sub_escaped_unicode s).
Proof.
  intros Hsp. induction s as [s IH] using str_length_ind. intros Hs.
  destruct s as [|c r]; [constructor|].
  pose proof Hs as Hall. apply Forall_cons in Hs as [Hc Hr].
  assert (Hskip : Forall Q (c :: sub_escaped_unicode r))
    by (constructor; [exact Hc|apply IH; [simpl; lia|exact Hr]]).
  simpl. destruct (is_backslash c); [|exact Hskip].
  destruct r as [|u [|h1 [|h2 [|h3 [|h4 r']]]]]; try exact Hskip.
  destruct (_ && _); [|exact Hskip].
  constructor; [exact Hsp|]. apply IH; [simpl; lia|].
  now do 5 apply Forall_cons in Hr as [_ Hr].
Qed.

Lemma Forall_sub_whitespace (Q : ascii -> Prop) s :
  Forall Q s ->
  Forall (fun c => (Q c /\ is_space c = false) \/ c = space) (sub_whitespace s).
Proof.
  induction 1 as [|c r Hc Hr IH]; [constructor|]. simpl.
  destruct (is_space c) eqn:Hsp.
  - destruct r as [|d r']; [now repeat constructor|].
    destruct (is_space d); [exact IH|]. constructor; [now right|exact IH].
  - constructor; [now left|exact IH].
Qed.

Lemma Forall_lstrip (Q : ascii -> Prop) s : Forall Q s -> Forall Q (lstrip s).
Proof.
  induction 1 as [|c r Hc Hr IH]; [constructor|]. simpl.
  destruct (is_space c); [exact IH|now constructor].
Qed.

Lemma Forall_strip (Q : ascii -> Prop) s : Forall Q s -> Forall Q (strip s).
Proof.
  intros H. unfold strip, rstrip.
  apply Forall_rev, Forall_lstrip, Forall_rev, Forall_lstrip, H.
Qed.

Lemma Forall_split (Q : ascii -> Prop) s :
  Forall Q s ->
  Forall (fun t => Forall (fun c => Q c /\ is_space c = false) t) (split s).
Proof.
  induction 1 as [|c r Hc Hr IH]; [constructor|]. simpl.
  destruct (is_space c) eqn:Hsp; [exact IH|].
  assert (Hone : Forall (fun c => Q c /\ is_space c = false) [c])
    by now repeat constructor.
  destruct r as [|d r']; [now repeat constructor|].
  destruct (is_space d); [now constructor|].
  destruct (split (d :: r')) as [|w ws]; [now repeat constructor|].
  apply Forall_cons in IH as [Hw Hws]. constructor; [|exact Hws].
  now constructor.
Qed.

Lemma Forall_filter_both {A} (Q : A -> Prop) (f : A -> bool) l :
  Forall Q l -> Forall (fun x => Q x /\ f x = true) (List.filter f l).
Proof.
  intros H. apply Forall_forall. intros x Hx.
  apply list_elem_of_In, filter_In in Hx as [Hx Hf].
  rewrite Forall_forall in H. split; [apply H, list_elem_of_In, Hx|exact Hf].
Qed.

Lemma clean_is_tidy s : Forall tidy_char (clean s).
Proof.
  unfold clean. apply Forall_strip.
  assert (Hlower : Forall (fun c => lower_char c = c) (lower s)).
  { unfold lower. apply Forall_forall. intros c Hc.
    apply list_elem_of_In, in_map_iff in Hc as (c0 & <- & _). apply lower_char_idem. }
  apply (Forall_sub_escaped_tn (fun c => lower_char c = c) _ eq_refl) in Hlower.
  apply (Forall_sub_escaped_unicode (fun c => lower_char c = c) _ eq_refl) in Hlower.
  apply (Forall_filter_both _ (fun c => negb (is_backslash c))) in Hlower.
  apply (Forall_filter_both _ (fun c => negb (is_digit c))) in Hlower.
  apply (Forall_filter_both _ (fun c => is_word c || is_space c)) in Hlower.
  apply Forall_sub_whitespace in Hlower.
  eapply Forall_impl; [exact Hlower|]. clear Hlower.
  intros c [[[[[Hl _] Hd] Hw] Hsp]| ->]; [left|now right].
  unfold plain_char. rewrite Hsp, orb_false_r in Hw. rewrite Hw, Hd, Hl. simpl.
  apply Ascii.eqb_refl.
Qed.

Lemma tokenize_clean_plain s :
  Forall (fun t => forallb plain_char t = true /\ is_long t = true) (tokenize (clean s)).
Proof.
  unfold tokenize.
  pose proof (Forall_split _ _ (clean_is_tidy s)) as H.
  apply (Forall_filter_both _ (fun token => nonblank token && is_long token)) in H.
  eapply Forall_impl; [exact H|]. clear H.
  intros t [Ht Hkeep]. apply andb_true_iff in Hkeep as [_ Hlong].
  split; [|exact Hlong]. apply forallb_forall. intros c Hc.
  rewrite Forall_forall in Ht. destruct (Ht c (proj2 (list_elem_of_In _ _) Hc)) as [[Hp| ->] Hsp].
  - exact Hp.
  - discriminate Hsp.
Qed.

Lemma candidates_pass_filters text stop_words :
  Forall (fun t => (forallb plain_char t = true /\ is_long t = true)
                   /\ negb (mem t (default get_cached_stopwords stop_words)) = true)
    (candidates text stop_words).
Proof.
  unfold candidates.
  pose proof (tokenize_clean_plain (strip text)) as H.
  now apply (Forall_filter_both _
           (fun word => negb (mem word (default get_cached_stopwords stop_words)))) in H.
Qed.

(** The tokens that reach the stemming step are longer than one character,
    hold only lower-case word characters that are no digits (so no
    whitespace, punctuation or backslash), and are no stopwords. *)
Theorem candidates_are_plain text stop_words :
  Forall (fun t => forallb plain_char t = true /\ is_long t = true
                   /\ mem t (default get_cached_stopwords stop_words) = false)
    (candidates text stop_words).
Proof.
  eapply Forall_impl; [apply candidates_pass_filters|].
  intros t [[Hp Hl] Hm]. apply negb_true_iff in Hm. auto.
Qed.

Lemma str_eqb_eq (a b : str) : str_eqb a b = true -> a = b.
Proof. unfold str_eqb. apply bool_decide_eq_true_1. Qed.

Lemma mem_reachable token stop_words :
  reachable_stopword token = true ->
  mem token (List.filter reachable_stopword stop_words) = mem token stop_words.
Proof.
  intros Ht. unfold mem. induction stop_words as [|w ws IH]; [reflexivity|]. simpl.
  destruct (str_eqb token w) eqn:Heq.
  - apply str_eqb_eq in Heq. subst w. rewrite Ht. simpl.
    unfold str_eqb at 1. now rewrite bool_decide_eq_true_2.
  - destruct (reachable_stopword w); simpl; [now rewrite Heq|]; exact IH.
Qed.

(** A stopword with a character that no token can hold (a hyphen, a
    digit, an upper-case letter), or of one character, never removes anything:
    leaving such entries out of the set gives the same result on every
    text. *)
Theorem unreachable_stopwords_are_dead text stop_words :
  preprocess_text text (Some (List.filter reachable_stopword stop_words))
  = preprocess_text text (Some stop_words).
Proof.
  rewrite !preprocess_text_final. unfold final_tokens, candidates. simpl.
  do 4 f_equal. apply filter_ext_in. intros t Ht. f_equal.
  apply mem_reachable.
  pose proof (tokenize_clean_plain (strip text)) as H. rewrite Forall_forall in H.
  destruct (H t (proj2 (list_elem_of_In _ _) Ht)) as [Hp Hl].
  unfold reachable_stopword. now rewrite Hp, Hl.
Qed.

(** When the stemming step changes nothing (the stemmer cannot be created,
    or it returns every token as it is), the normalizer is idempotent: a
    second run on any result returns that result. *)
Theorem normalizer_idempotent_without_stemming text stop_words out :
  (forall tokens, stem_tokens tokens = tokens) ->
  preprocess_text text stop_words = Ok out ->
  preprocess_text out stop_words = Ok out.
Proof.
  intros Hstem. rewrite preprocess_text_final. intros [= <-].
  rewrite preprocess_text_final. f_equal. f_equal.
  apply final_tokens_settled. unfold final_tokens. rewrite Hstem.
  pose proof (candidates_pass_filters text stop_words) as H.
  apply (Forall_filter_both _
           (fun token => match token with [] => false | _ => is_long token end)) in H.
  eapply Forall_impl; [exact H|].
  intros t [[[Hp Hl] Hm] _]. apply negb_true_iff in Hm. repeat split; auto.
Qed.

Lemma preprocess_text_default text stop_words :
  preprocess_text text (Some (default get_cached_stopwords stop_words))
  = preprocess_text text stop_words.
Proof. rewrite !preprocess_text_final. now destruct stop_words. Qed.

(** With a working stemmer factory the batch function returns, for each
    text in order, what [preprocess_text] returns on it.  With a failing
    factory the batch raises, although [preprocess_text] on each text still
    returns. *)
Theorem batch_is_map_of_single texts stop_words :
  (forall stemmer, get_stemmer = Ok stemmer ->
     batch_preprocess_text texts stop_words
     = mapM (fun text => preprocess_text text stop_words) texts)
  /\ (forall e, get_stemmer = Raise e ->
        batch_preprocess_text texts stop_words = Raise e
        /\ forall text, exists out, preprocess_text text stop_words = Ok out).
Proof.
  split.
  - intros stemmer Hs. unfold batch_preprocess_text. rewrite Hs. simpl.
    induction texts as [|text texts IH]; [reflexivity|].
    cbn [mapM map]. rewrite preprocess_text_default.
    rewrite preprocess_text_final at 1 2. simpl.
    rewrite <- IH. reflexivity.
  - intros e He. unfold batch_preprocess_text. rewrite He. simpl.
    split; [reflexivity|]. intros text. rewrite preprocess_text_final. eauto.
Qed.

(** [process_innovation_text] and any weight up to 1 give the normalized
    form of description, one space, category; a missing field counts as
    empty. *)
Lemma process_innovation_text_combined deskripsi kategori kategori_weight :
  (kategori_weight <= 1)%Z ->
  preprocess_combined_features deskripsi kategori kategori_weight
  = preprocess_text (default [] deskripsi ++ space :: default [] kategori) None
  /\ process_innovation_text deskripsi kategori
     = preprocess_text (default [] deskripsi ++ space :: default [] kategori) None.
Proof.
  intros Hw. unfold process_innovation_text, preprocess_combined_features.
  assert (H1 : (1 <? kategori_weight)%Z = false) by (apply Z.ltb_ge; lia).
  now rewrite H1.
Qed.

Lemma lstrip_spaces_app ws s :
  Forall (fun c => is_space c = true) ws -> lstrip (ws ++ s) = lstrip s.
Proof. induction 1 as [|c ws Hc _ IH]; [reflexivity|]. simpl. now rewrite Hc. Qed.

Lemma lstrip_app_spaces s ws :
  Forall (fun c => is_space c = true) ws ->
  lstrip (s ++ ws) = match lstrip s with [] => [] | _ => lstrip s ++ ws end.
Proof.
  intros Hws. induction s as [|c s IH]; simpl.
  - rewrite <- (app_nil_r ws). rewrite (lstrip_spaces_app _ _ Hws). reflexivity.
  - destruct (is_space c); [exact IH|reflexivity].
Qed.

Lemma strip_app_spaces s ws :
  Forall (fun c => is_space c = true) ws -> strip (s ++ ws) = strip s.
Proof.
  intros Hws. unfold strip, rstrip. rewrite (lstrip_app_spaces _ _ Hws).
  destruct (lstrip s) as [|c r] eqn:Hs; [reflexivity|].
  rewrite rev_app_distr, lstrip_spaces_app; [reflexivity|].
  now apply Forall_rev.
Qed.

Lemma strip_spaces_app ws s :
  Forall (fun c => is_space c = true) ws -> strip (ws ++ s) = strip s.
Proof. intros Hws. unfold strip. now rewrite (lstrip_spaces_app _ _ Hws). Qed.

Lemma preprocess_text_strip text text' stop_words :
  strip text = strip text' ->
  preprocess_text text stop_words = preprocess_text text' stop_words.
Proof.
  intros H. rewrite !preprocess_text_final. unfold final_tokens, candidates.
  now rewrite H.
Qed.

(** A missing or empty field adds nothing.  Without a category the
    combined form is the normalized description, whatever the weight;
    without a description it is, for a weight up to 1, the normalized
    category. *)
Theorem combined_features_missing_field text kategori_weight :
  (preprocess_combined_features (Some text) None kategori_weight
   = preprocess_text text None
   /\ preprocess_combined_features (Some text) (Some []) kategori_weight
      = preprocess_text text None)
  /\ ((kategori_weight <= 1)%Z ->
      preprocess_combined_features None (Some text) kategori_weight
      = preprocess_text text None).
Proof.
  assert (Hsp : forall n, Forall (fun c => is_space c = true)
                            (space :: concat (replicate n ([] ++ [space])))).
  { intros n. constructor; [reflexivity|].
    induction n as [|n IH]; simpl; [constructor|now constructor]. }
  assert (Hnone : preprocess_combined_features (Some text) None kategori_weight
                  = preprocess_text text None).
  { unfold preprocess_combined_features. simpl default.
    apply preprocess_text_strip.
    destruct (1 <? kategori_weight)%Z.
    - apply strip_app_spaces, Hsp.
    - apply strip_app_spaces. now repeat constructor. }
  split; [split; [exact Hnone|exact Hnone]|].
  intros Hw. unfold preprocess_combined_features. simpl default.
  assert (H1 : (1 <? kategori_weight)%Z = false) by (apply Z.ltb_ge; lia).
  rewrite H1. apply preprocess_text_strip.
  apply (strip_spaces_app [space]). now repeat constructor.
Qed.

End Normalizer.

(** ** The normalizer on concrete resources *)

(** The NLTK corpus is not installed: the manual table is used. *)
Definition nltk_missing : result (list str) := Raise ResourceError.

(** A stemmer that returns every token as it is. *)
Definition identity_stemmer : result (str -> result str) := Ok (fun token => Ok token).

(** A stemmer given by a table.  It answers as Sastrawi does on [berguna]
    and [kesehatan], and raises on the token [rusak]. *)
Definition table_stemmer (token : str) : result str :=
  if str_eqb token (py "berguna") then Ok (py "guna")
  else if str_eqb token (py "kesehatan") then Ok (py "sehat")
  else if str_eqb token (py "rusak") then Raise StemmerError
  else Ok token.

(** The sample of the specification: stopwords, digits and punctuation
    are removed. *)
Example preprocess_sample :
  preprocess_text nltk_missing identity_stemmer (py "Ini adalah 123 contoh!!") None
    = Ok (py "contoh").
Proof. vm_compute. reflexivity. Qed.

(** Escape sequences become spaces, other backslashes vanish, and tokens of
    one character are dropped. *)
Example preprocess_escapes :
  preprocess_text nltk_missing (Ok table_stemmer)
    (py "A" ++ backslash :: py "nMesin" ++ backslash :: py "x y kesehatan") None
    = Ok (py "mesinx sehat").
Proof. vm_compute. reflexivity. Qed.

(** C7, as stated, fails.  The stemmer raises on [rusak] only; stemming
    token by token would give [sehat rusak], but the code also leaves
    [kesehatan] unstemmed. *)
Lemma stemmer_failure_is_not_per_token :
  candidates nltk_missing (py "kesehatan rusak") None = [py "kesehatan"; py "rusak"]
  /\ table_stemmer (py "kesehatan") = Ok (py "sehat")
  /\ table_stemmer (py "rusak") = Raise StemmerError
  /\ stem_each_token (Ok table_stemmer) [py "kesehatan"; py "rusak"]
     = [py "sehat"; py "rusak"]
  /\ stem_tokens (Ok table_stemmer) [py "kesehatan"; py "rusak"]
     = [py "kesehatan"; py "rusak"]
  /\ preprocess_text nltk_missing (Ok table_stemmer) (py "kesehatan rusak") None
     = Ok (py "kesehatan rusak").
Proof. repeat split; vm_compute; reflexivity. Qed.

(** C7 on a text whose second token makes the stemmer raise. *)
Lemma stemmer_failure_keeps_all_tokens_witness :
  stem_tokens (Ok table_stemmer) (candidates nltk_missing (py "kesehatan rusak") None)
    = candidates nltk_missing (py "kesehatan rusak") None
  /\ preprocess_text nltk_missing (Ok table_stemmer) (py "kesehatan rusak") None
     = Ok (join (List.filter is_long (candidates nltk_missing (py "kesehatan rusak") None))).
Proof.
  apply (proj2 (stemmer_failure_keeps_all_tokens nltk_missing (Ok table_stemmer)
                  (py "kesehatan rusak") None) table_stemmer (py "rusak") StemmerError).
  - reflexivity.
  - vm_compute. right. left. reflexivity.
  - reflexivity.
Defined.

(** C6, as stated, fails.  [berguna] is no stopword and its stem [guna] is
    one: the first run returns [guna], the second run returns the empty
    string. *)
Lemma normalizer_is_not_idempotent :
  preprocess_text nltk_missing (Ok table_stemmer) (py "berguna") None = Ok (py "guna")
  /\ preprocess_text nltk_missing (Ok table_stemmer) (py "guna") None = Ok []
  /\ py "guna" <> [].
Proof. repeat split; [vm_compute; reflexivity..|discriminate]. Qed.

(** C6 on a text whose tokens are settled after one run. *)
Lemma normalizer_idempotent_on_settled_witness :
  exists out,
    preprocess_text nltk_missing (Ok table_stemmer) (py "Aplikasi 2 digital!") None = Ok out
    /\ preprocess_text nltk_missing (Ok table_stemmer) out None = Ok out.
Proof.
  apply (normalizer_idempotent_on_settled nltk_missing (Ok table_stemmer)).
  vm_compute. repeat constructor.
Defined.

(** ** Further properties on concrete resources *)

(** Idempotence without a stemmer, on the sample of the specification. *)
Lemma normalizer_idempotent_without_stemming_witness :
  preprocess_text nltk_missing (Raise StemmerError) (py "contoh") None = Ok (py "contoh").
Proof.
  apply (normalizer_idempotent_without_stemming nltk_missing (Raise StemmerError)
           (py "Ini adalah 123 contoh!!") None (py "contoh")).
  - intros tokens. reflexivity.
  - vm_compute. reflexivity.
Defined.

(** The batch on two texts, with a working and with a failing factory. *)
Lemma batch_is_map_of_single_witness :
  batch_preprocess_text nltk_missing (Ok table_stemmer)
    [py "Aplikasi kesehatan"; py "123"] None
  = mapM (fun text => preprocess_text nltk_missing (Ok table_stemmer) text None)
      [py "Aplikasi kesehatan"; py "123"]
  /\ batch_preprocess_text nltk_missing (Raise StemmerError)
       [py "Aplikasi kesehatan"; py "123"] None
     = Raise StemmerError.
Proof.
  split.
  - apply (proj1 (batch_is_map_of_single nltk_missing (Ok table_stemmer) _ None)
             table_stemmer).
    reflexivity.
  - apply (proj2 (batch_is_map_of_single nltk_missing (Raise StemmerError)
                    [py "Aplikasi kesehatan"; py "123"] None) StemmerError).
    reflexivity.
Defined.

(** The combined form with no category and with no description. *)
Lemma combined_features_missing_field_witness :
  preprocess_combined_features nltk_missing identity_stemmer
    (Some (py "Aplikasi kesehatan")) None 3
  = preprocess_text nltk_missing identity_stemmer (py "Aplikasi kesehatan") None
  /\ preprocess_combined_features nltk_missing identity_stemmer
       None (Some (py "kesehatan")) 1
     = preprocess_text nltk_missing identity_stemmer (py "kesehatan") None.
Proof.
  split.
  - apply (combined_features_missing_field nltk_missing identity_stemmer).
  - apply (combined_features_missing_field nltk_missing identity_stemmer). lia.
Defined.

End Text.


(** * app/services/recommendation_service.py *)

Module Engine.

(** ** Data *)

(** [doc.to_dict()] of a stored innovation; a field may be absent. *)
Record Document : Type := {
  doc_deskripsi : option str;
  doc_kategori : option str;
  doc_namaInovasi : option str;
  doc_namaInnovator : option str;
  doc_images : option (list str);
  doc_tahunDibuat : option str;
}.

(** One row of the engine's DataFrame.  The two derived columns are empty
    until the rebuild fills them. *)
Record Row : Type := {
  row_id : str;
  deskripsi : str;
  kategori : str;
  namaInovasi : str;
  namaInnovator : str;
  images : option (list str);
  tahunDibuat : option str;
  combined_features : str;
  processed_text : str;
}.

(** A DataFrame with a fresh positional index. *)
Abbreviation DataFrame := (list Row).

(** A dense array of scores, row by row. *)
Abbreviation Matrix := (list (list Q)).

Record RecommendationResponse : Type := {
  rec_id : str;
  rec_inovasi : str;
  rec_kategori : str;
  rec_deskripsi : str;
  rec_namaInnovator : str;
  rec_images : list str;
  rec_tahunDibuat : option str;
  similarity_score : Q;
}.

(** The values of the statistics report. *)
Inductive pyval : Type :=
  | PStr (s : string)
  | PInt (z : Z)
  | PShape (rows cols : nat)
  | PNone.

(** The world outside the engine: the clock read by [time.time()], the
    content of the [innovations] collection (reading it, or decoding one
    document, may raise), the number of queries the store has served, and the
    time that passes while the store answers its next query and the rebuild
    that asked for it runs (by the number of queries served before). *)
Record World : Type := {
  clock : Z;
  innovations : result (list (str * result Document));
  queries : nat;
  latency : nat -> Z;
}.

(** [score >= min_similarity] and [score > threshold] on scores. *)
Definition score_geb (a b : Q) : bool := Qle_bool b a.
Definition score_gtb (a b : Q) : bool := negb (Qle_bool a b).

(** To the nearest integer, halves to even ([numpy.rint]). *)
Definition round_half_even (x : Q) : Z :=
  let n := Qfloor x in
  match (x - inject_Z n ?= 1 # 2)%Q with
  | Lt => n
  | Gt => (n + 1)%Z
  | Eq => if Z.even n then n else (n + 1)%Z
  end.

(** [floor(log2 x)] for a positive [x]. *)
Definition ilog2 (x : Q) : Z :=
  let e := (Z.log2 (Qnum x) - Z.log2 (Z.pos (Qden x)))%Z in
  if Qle_bool (2 ^ e) x then e else (e - 1)%Z.

(** The unit in the last place of the binary64 numbers around [x]: 52
    fraction bits below the leading one, and the fixed spacing of the
    subnormal numbers below [2 ^ -1022]. *)
Definition ulp (x : Q) : Q := (2 ^ (Z.max (ilog2 (Qabs x)) (-1022) - 52))%Q.

(** The binary64 number nearest to [x], halves to even: the result of a
    floating-point operation whose exact result is [x].  (No score comes near
    the largest binary64 number; infinities and NaN are left out.) *)
Definition float64 (x : Q) : Q :=
  match (x ?= 0)%Q with
  | Eq => 0%Q
  | _ => (inject_Z (round_half_even (x / ulp x)) * ulp x)%Q
  end.

(** [round(score, 4)] on a [numpy.float64]: NumPy multiplies by [10.0 ** 4],
    rounds to the nearest integer and divides again, each in binary64
    arithmetic. *)
Definition round4 (score : Q) : Q :=
  float64 (inject_Z (round_half_even (float64 (score * 10000))) / 10000)%Q.

(** The literal [0.01] of the source. *)
Definition hundredth : Q := float64 (1 # 100).

(** [sorted(pairs, key=lambda x: x[1], reverse=True)]: a stable sort, so
    pairs with equal scores keep their order. *)
Fixpoint insert_desc (x : nat * Q) (l : list (nat * Q)) : list (nat * Q) :=
  match l with
  | [] => [x]
  | y :: l' => if score_gtb y.2 x.2 then y :: insert_desc x l' else x :: l
  end.

Definition sorted_desc (l : list (nat * Q)) : list (nat * Q) :=
  foldr insert_desc [] l.

(** The order a stable descending sort leaves between two pairs: a larger
    score first, and among equal scores the smaller row index first. *)
Definition ranks_before (a b : nat * Q) : Prop :=
  (b.2 < a.2)%Q \/ ((b.2 == a.2)%Q /\ (a.1 < b.1)%nat).

(** The order of an enumeration. *)
Definition by_index (a b : nat * Q) : Prop := (a.1 < b.1)%nat.

(** [list(enumerate(row))] *)
Definition enumerate {A} (l : list A) : list (nat * A) := imap (fun i x => (i, x)) l.

(** [l[1 : stop]] for a Python integer [stop]. *)
Definition slice_from_1 {A} (stop : Z) (l : list A) : list A :=
  let n := Z.of_nat (length l) in
  let stop := if (stop <? 0)%Z then Z.max 0 (stop + n) else stop in
  drop 1 (take (Z.to_nat stop) l).

(** [l[-k :]] for a Python integer [k]. *)
Definition slice_last {A} (k : Z) (l : list A) : list A :=
  let n := Z.of_nat (length l) in
  let start := (- k)%Z in
  let start := if (start <? 0)%Z then Z.max 0 (start + n) else start in
  drop (Z.to_nat start) l.

Section Engine.

(** ** Collaborators outside the repository *)

(** The resources of the text normalizer. *)
Variable nltk_stopwords : result (list str).
Variable create_stemmer : result (str -> result str).

(** A fitted [TfidfVectorizer], with [fit_transform], [transform] and the
    size of [get_feature_names_out()]. *)
Variable Vectorizer : Type.
Variable fit_transform : list str -> result (Vectorizer * Matrix).
Variable transform : Vectorizer -> list str -> result Matrix.
Variable n_features : Vectorizer -> nat.

(** [cosine_similarity(X, Y)] and
    [cosine_similarity(X, dense_output=False).toarray()]. *)
Variable cosine_similarity : Matrix -> Matrix -> result Matrix.
Variable cosine_similarity_sparse : Matrix -> result Matrix.

(** [ndarray.argsort()] *)
Variable argsort : list Q -> list nat.

(** Validation by the response model ([app/models/recommendation.py]). *)
Variable response_valid : RecommendationResponse -> bool.

(** Whether the [k]-th submitted future answers within its 5 seconds. *)
Variable in_time : nat -> bool.

(** ** The engine object and the monad of its methods *)

(** The attributes of [self], the lock apart: in a single thread
    [with self.lock] takes a free lock and frees it on the way out. *)
Record State : Type := {
  df : option DataFrame;
  tfidf : option Vectorizer;
  cosine_sim : option Matrix;
  cache_ttl : Z;
  last_update : Z;
  is_initialized : bool;
}.

Record Sys : Type := { self : State; world : World }.

(** A method runs on the engine and the world and returns or raises; what
    it wrote before raising stays written. *)
Definition M (A : Type) : Type := Sys -> result A * Sys.

#[global] Instance M_ret : MRet M := fun A a s => (Ok a, s).
#[global] Instance M_bind : MBind M := fun A B f m s =>
  match m s with
  | (Ok a, s') => f a s'
  | (Raise e, s') => (Raise e, s')
  end.

Definition raise {A} (e : exn) : M A := fun s => (Raise e, s).

Definition lift {A} (r : result A) : M A := fun s => (r, s).

Definition try_catch {A} (m : M A) (h : exn -> M A) : M A := fun s =>
  match m s with
  | (Ok a, s') => (Ok a, s')
  | (Raise e, s') => h e s'
  end.

Definition get_self : M State := fun s => (Ok (self s), s).

Definition put_self (st : State) : M unit := fun s =>
  (Ok tt, {| self := st; world := world s |}).

(** The five assignments that commit a rebuild. *)
Definition set_df (d : DataFrame) : M unit :=
  st ← get_self;
  put_self {| df := Some d; tfidf := tfidf st; cosine_sim := cosine_sim st;
              cache_ttl := cache_ttl st; last_update := last_update st;
              is_initialized := is_initialized st |}.

Definition set_tfidf (v : Vectorizer) : M unit :=
  st ← get_self;
  put_self {| df := df st; tfidf := Some v; cosine_sim := cosine_sim st;
              cache_ttl := cache_ttl st; last_update := last_update st;
              is_initialized := is_initialized st |}.

Definition set_cosine_sim (m : Matrix) : M unit :=
  st ← get_self;
  put_self {| df := df st; tfidf := tfidf st; cosine_sim := Some m;
              cache_ttl := cache_ttl st; last_update := last_update st;
              is_initialized := is_initialized st |}.

Definition set_last_update (t : Z) : M unit :=
  st ← get_self;
  put_self {| df := df st; tfidf := tfidf st; cosine_sim := cosine_sim st;
              cache_ttl := cache_ttl st; last_update := t;
              is_initialized := is_initialized st |}.

Definition set_is_initialized (b : bool) : M unit :=
  st ← get_self;
  put_self {| df := df st; tfidf := tfidf st; cosine_sim := cosine_sim st;
              cache_ttl := cache_ttl st; last_update := last_update st;
              is_initialized := b |}.

(** [time.time()]: the present reading of the clock.  Two readings differ
    when the store was queried in between (see [stream_innovations]). *)
Definition time_time : M Z := fun s => (Ok (clock (world s)), s).

(** [db.collection("innovations").select(...).stream()]: one more query
    served, then the documents or the client's exception.  The clock moves on
    by the time the query and the rebuild around it take: the stamp that
    [initialize_model] read before is older than a reading taken after. *)
Definition stream_innovations : M (list (str * result Document)) := fun s =>
  let w := world s in
  (innovations w,
   {| self := self s;
      world := {| clock := (clock w + latency w (queries w))%Z;
                  innovations := innovations w;
                  queries := S (queries w); latency := latency w |} |}).

(** [l[i]] and [df.iloc[i]] *)
Definition at_index {A} (l : list A) (i : nat) : M A :=
  match l !! i with Some x => mret x | None => raise IndexError end.

(** Subscripting an attribute that may still be [None]. *)
Definition not_none {A} (o : option A) : M A :=
  match o with Some x => mret x | None => raise TypeError end.

(** ** The rebuild pipeline *)

Definition row_of_document (id : str) (d : Document) : Row :=
  {| row_id := id;
     deskripsi := default [] (doc_deskripsi d);
     kategori := default [] (doc_kategori d);
     namaInovasi := default [] (doc_namaInovasi d);
     namaInnovator := default [] (doc_namaInnovator d);
     images := doc_images d;
     tahunDibuat := doc_tahunDibuat d;
     combined_features := [];
     processed_text := [] |}.

(** The fetched [doc_data] dictionaries, [doc_data["id"] = doc.id]
    included; a document that fails to decode is skipped, a failing query
    gives the empty list. *)
Definition _fetch_innovations_from_firebase : M (list (str * Document)) :=
  try_catch
    (docs ← stream_innovations;
     mret (omap (fun '(id, d) =>
                   match d with Ok f => Some (id, f) | Raise _ => None end) docs))
    (fun _ => mret []).

(** Rows with a blank id are dropped; absent text fields become [""]. *)
Definition _validate_and_clean_data (data : list (str * Document)) : DataFrame :=
  match data with
  | [] => []
  | _ => map (fun '(id, d) => row_of_document id d)
             (List.filter (fun '(id, _) => Text.nonblank id) data)
  end.

Definition with_combined_features (r : Row) : Row :=
  {| row_id := row_id r; deskripsi := deskripsi r; kategori := kategori r;
     namaInovasi := namaInovasi r; namaInnovator := namaInnovator r;
     images := images r; tahunDibuat := tahunDibuat r;
     combined_features := deskripsi r ++ Text.space :: kategori r;
     processed_text := processed_text r |}.

Definition _create_combined_features (d : DataFrame) : DataFrame :=
  map with_combined_features d.

Definition _batch_preprocess_texts (texts : list str) : M (list str) :=
  lift (Text.batch_preprocess_text nltk_stopwords create_stemmer texts None).

Definition _build_tfidf_matrix (processed_texts : list str)
  : M (option Vectorizer * option Matrix) :=
  let valid_texts := List.filter Text.nonblank processed_texts in
  if (length valid_texts <? 2)%nat then mret (None, None)
  else
    try_catch
      (r ← lift (fit_transform processed_texts);
       mret (Some r.1, Some r.2))
      (fun _ => mret (None, None)).

Definition _calculate_similarity_matrix (tfidf_matrix : Matrix) : M (option Matrix) :=
  try_catch
    (if (1000 <? length tfidf_matrix)%nat
     then m ← lift (cosine_similarity_sparse tfidf_matrix); mret (Some m)
     else m ← lift (cosine_similarity tfidf_matrix tfidf_matrix); mret (Some m))
    (fun _ => mret None).

Definition with_processed_text (r : Row) (text : str) : Row :=
  {| row_id := row_id r; deskripsi := deskripsi r; kategori := kategori r;
     namaInovasi := namaInovasi r; namaInnovator := namaInnovator r;
     images := images r; tahunDibuat := tahunDibuat r;
     combined_features := combined_features r;
     processed_text := text |}.

(** [[i for i, text in enumerate(processed_texts) if text.strip()]] *)
Definition valid_indices (processed_texts : list str) : list nat :=
  map fst (List.filter (fun p => Text.nonblank p.2) (enumerate processed_texts)).

(** The TTL test at the head of [initialize_model]. *)
Definition cache_is_fresh (force_refresh : bool) (current_time : Z) (st : State) : bool :=
  negb force_refresh && is_initialized st
  && (current_time - last_update st <? cache_ttl st)%Z.

(** The [try] block that [initialize_model] runs under the lock. *)
Definition rebuild (current_time : Z) : M bool :=
  try_catch
    (data ← _fetch_innovations_from_firebase;
     match data with
     | [] => mret false
     | _ =>
       let d := _validate_and_clean_data data in
       match d with
       | [] => mret false
       | _ =>
         let d := _create_combined_features d in
         processed_texts ← _batch_preprocess_texts (map combined_features d);
         let valid := valid_indices processed_texts in
         if (length valid <? 2)%nat then mret false
         else
           d ← mapM (at_index d) valid;
           processed_texts ← mapM (at_index processed_texts) valid;
           let d := zip_with with_processed_text d processed_texts in
           built ← _build_tfidf_matrix processed_texts;
           match built with
           | (Some vectorizer, Some tfidf_matrix) =>
             sim ← _calculate_similarity_matrix tfidf_matrix;
             match sim with
             | None => mret false
             | Some sim =>
               set_df d;;
               set_tfidf vectorizer;;
               set_cosine_sim sim;;
               set_last_update current_time;;
               set_is_initialized true;;
               mret true
             end
           | _ => mret false
           end
       end
     end)
    (fun _ => mret false).

Definition initialize_model (force_refresh : bool) : M bool :=
  current_time ← time_time;
  st ← get_self;
  if cache_is_fresh force_refresh current_time st then mret true
  else rebuild current_time.

Definition force_refresh : M bool := initialize_model true.

(** [RecommendationEngine(cache_ttl)]: the constructor ends with a first
    rebuild, whose result it drops. *)
Definition new_state (ttl : Z) : State :=
  {| df := None; tfidf := None; cosine_sim := None; cache_ttl := ttl;
     last_update := 0; is_initialized := false |}.

Definition RecommendationEngine (ttl : Z) (w : World) : Sys :=
  (initialize_model false {| self := new_state ttl; world := w |}).2.

(** ** Retrieval *)

(** [_safe_get_value(row, "images", [])] followed by the [isinstance]
    test.  [pd.isna] of a list is an array, whose truth value is only
    defined for one element: the helper's [except] returns the default for
    longer lists, and the empty list is its own default. *)
Definition safe_images (raw : option (list str)) : list str :=
  match raw with
  | Some [image] => [image]
  | _ => []
  end.

(** [None] when the response model rejects the row. *)
Definition _process_recommendation_row (row : Row) (score : Q)
  : option RecommendationResponse :=
  let rec :=
    {| rec_id := row_id row;
       rec_inovasi := namaInovasi row;
       rec_kategori := kategori row;
       rec_deskripsi := deskripsi row;
       rec_namaInnovator := namaInnovator row;
       rec_images := safe_images (images row);
       rec_tahunDibuat := tahunDibuat row;
       similarity_score := round4 score |} in
  if response_valid rec then Some rec else None.

(** The response built for the pair (row index, score), if any. *)
Definition response_of (d : DataFrame) (p : nat * Q) : option RecommendationResponse :=
  row ← d !! p.1; _process_recommendation_row row p.2.

(** [matching_rows.index[0]]: the first row with the given id. *)
Fixpoint find_id (innovation_id : str) (d : DataFrame) : option nat :=
  match d with
  | [] => None
  | r :: d' =>
      if Text.str_eqb (row_id r) innovation_id then Some 0%nat
      else S <$> find_id innovation_id d'
  end.

(** The ranked (index, score) pairs that [get_recommendations] keeps:
    enumerate the row, filter by the threshold, sort, drop the head, cut. *)
Definition ranked (scores : list Q) (top_n : Z) (min_similarity : Q) : list (nat * Q) :=
  let sim_scores := enumerate scores in
  let sim_scores := List.filter (fun p => score_geb p.2 min_similarity) sim_scores in
  let sim_scores := sorted_desc sim_scores in
  slice_from_1 (top_n + 1) sim_scores.

(** [row = self.df.iloc[i]] followed by
    [self._process_recommendation_row(row, score)]. *)
Definition lookup_and_process (d : DataFrame) (p : nat * Q)
  : M (option RecommendationResponse) :=
  row ← at_index d p.1;
  mret (_process_recommendation_row row p.2).

(** The serial loop: every row is looked up, rejected rows are left out. *)
Definition materialize_serial (d : DataFrame) (sim_scores : list (nat * Q))
  : M (list RecommendationResponse) :=
  recs ← mapM (lookup_and_process d) sim_scores;
  mret (omap (fun rec => rec) recs).

(** The thread pool: every row is looked up and submitted, then each
    future is awaited in order; late and rejected ones are left out. *)
Definition materialize_parallel (d : DataFrame) (sim_scores : list (nat * Q))
  : M (list RecommendationResponse) :=
  futures ← mapM (lookup_and_process d) sim_scores;
  mret (omap (fun rec => rec)
          (imap (fun k rec => if in_time k then rec else None) futures)).

(** The [try] block of [get_recommendations]: the answer read off the
    current snapshot. *)
Definition recommend_from_snapshot (innovation_id : str) (top_n : Z)
    (min_similarity : Q) : M (list RecommendationResponse) :=
  try_catch
    (st ← get_self;
     d ← not_none (df st);
     match find_id innovation_id d with
     | None => mret []
     | Some idx =>
       sim ← not_none (cosine_sim st);
       scores ← at_index sim idx;
       let sim_scores := ranked scores top_n min_similarity in
       if (10 <? length sim_scores)%nat
       then materialize_parallel d sim_scores
       else materialize_serial d sim_scores
     end)
    (fun _ => mret []).

Definition get_recommendations (innovation_id : str) (top_n : Z) (min_similarity : Q)
  : M (list RecommendationResponse) :=
  if negb (Text.nonblank innovation_id) then mret []
  else
    st ← get_self;
    ready ← (if negb (is_initialized st) then initialize_model false else mret true);
    if negb ready then mret []
    else
      current_time ← time_time;
      st ← get_self;
      ready ← (if (cache_ttl st <? current_time - last_update st)%Z
               then initialize_model false else mret true);
      if negb ready then mret []
      else recommend_from_snapshot innovation_id top_n min_similarity.

(** The defaults of the signature. *)
Definition default_top_n : Z := 5.
Definition default_min_similarity : Q := hundredth.

Definition get_model_stats (st : State) : gmap string pyval :=
  if negb (is_initialized st) then {[ "status"%string := PStr "not_initialized" ]}
  else
    <[ "status"%string := PStr "initialized" ]>
    (<[ "total_innovations"%string :=
          PInt (Z.of_nat (match df st with Some d => length d | None => 0%nat end)) ]>
    (<[ "last_update"%string := PInt (last_update st) ]>
    (<[ "cache_ttl"%string := PInt (cache_ttl st) ]>
    (<[ "tfidf_features"%string :=
          PInt (Z.of_nat (match tfidf st with Some v => n_features v | None => 0%nat end)) ]>
    (<[ "similarity_matrix_shape"%string :=
          match cosine_sim st with
          | Some m => PShape (length m) (length (List.hd [] m))
          | None => PNone
          end ]> ∅))))).

(** The loop over [top_indices] of [search_innovations]. *)
Definition search_results (d : DataFrame) (similarities : list Q) (top_indices : list nat)
  : M (list RecommendationResponse) :=
  recs ← mapM (fun idx =>
                 score ← at_index similarities idx;
                 if score_gtb score hundredth
                 then row ← at_index d idx;
                      mret (_process_recommendation_row row score)
                 else mret None) top_indices;
  mret (omap (fun rec => rec) recs).

Definition search_innovations (query : str) (top_n : Z)
  : M (list RecommendationResponse) :=
  st ← get_self;
  if negb (is_initialized st) || negb (Text.nonblank query) then mret []
  else
    try_catch
      (processed_query ← lift (Text.preprocess_text nltk_stopwords create_stemmer query None);
       match processed_query with
       | [] => mret []
       | _ =>
         vectorizer ← not_none (tfidf st);
         query_vector ← lift (transform vectorizer [processed_query]);
         d ← not_none (df st);
         documents ← lift (transform vectorizer (map processed_text d));
         sim ← lift (cosine_similarity query_vector documents);
         let similarities := concat sim in
         let top_indices := rev (slice_last top_n (argsort similarities)) in
         search_results d similarities top_indices
       end)
      (fun _ => mret []).

(** ** What a rebuild computes

    The rebuild is traced stage by stage as a function of the world; the
    method [rebuild] is then shown to return exactly this outcome. *)

(** The world after one more query to the store. *)
Definition served (s : Sys) : Sys :=
  {| self := self s;
     world := {| clock := (clock (world s) + latency (world s) (queries (world s)))%Z;
                 innovations := innovations (world s);
                 queries := S (queries (world s)); latency := latency (world s) |} |}.

(** Stage 1: the fetched records. *)
Definition fetched (w : World) : list (str * Document) :=
  match innovations w with
  | Ok docs => omap (fun '(id, d) =>
                       match d with Ok f => Some (id, f) | Raise _ => None end) docs
  | Raise _ => []
  end.

(** Stages 2 and 3: the cleaned table with its combined text. *)
Definition prepared (w : World) : DataFrame :=
  _create_combined_features (_validate_and_clean_data (fetched w)).

(** Stage 4: the normalized texts, one per prepared row. *)
Definition normalized (w : World) : result (list str) :=
  Text.batch_preprocess_text nltk_stopwords create_stemmer
    (map combined_features (prepared w)) None.

(** The entries of [l] at the positions [idxs]. *)
Definition select {A} (idxs : list nat) (l : list A) : list A :=
  omap (fun i => l !! i) idxs.

(** The texts that survive the blank filter. *)
Definition kept_texts (w : World) : list str :=
  match normalized w with
  | Ok texts => select (valid_indices texts) texts
  | Raise _ => []
  end.

(** The similarity call that [_calculate_similarity_matrix] makes. *)
Definition similarity_call (tfidf_matrix : Matrix) : result Matrix :=
  if (1000 <? length tfidf_matrix)%nat
  then cosine_similarity_sparse tfidf_matrix
  else cosine_similarity tfidf_matrix tfidf_matrix.

(** The snapshot a rebuild commits, if it gets that far. *)
Definition snapshot_of (w : World) : option (DataFrame * Vectorizer * Matrix) :=
  match fetched w, prepared w, normalized w with
  | _ :: _, _ :: _, Ok texts =>
      let valid := valid_indices texts in
      if (length valid <? 2)%nat then None
      else
        match fit_transform (select valid texts) with
        | Ok (vectorizer, tfidf_matrix) =>
            match similarity_call tfidf_matrix with
            | Ok sim =>
                Some (zip_with with_processed_text (select valid (prepared w))
                        (select valid texts), vectorizer, sim)
            | Raise _ => None
            end
        | Raise _ => None
        end
  | _, _, _ => None
  end.

(** The ways a rebuild step can fail. *)
Inductive step_failure (w : World) : Prop :=
  | empty_fetch :
      fetched w = [] -> step_failure w
  | no_valid_rows :
      _validate_and_clean_data (fetched w) = [] -> step_failure w
  | normalizer_raised e :
      normalized w = Raise e -> step_failure w
  | too_few_texts texts :
      normalized w = Ok texts -> (length (valid_indices texts) < 2)%nat -> step_failure w
  | tfidf_failed e :
      fit_transform (kept_texts w) = Raise e -> step_failure w
  | similarity_failed vectorizer tfidf_matrix e :
      fit_transform (kept_texts w) = Ok (vectorizer, tfidf_matrix) ->
      similarity_call tfidf_matrix = Raise e -> step_failure w.

(** The engine after the five assignments of a successful rebuild. *)
Definition committed (st : State) (current_time : Z)
    (snap : DataFrame * Vectorizer * Matrix) : State :=
  {| df := Some snap.1.1; tfidf := Some snap.1.2; cosine_sim := Some snap.2;
     cache_ttl := cache_ttl st; last_update := current_time;
     is_initialized := true |}.

(** The cache is absent or older than its TTL. *)
Definition stale (s : Sys) : Prop :=
  is_initialized (self s) = false
  \/ (cache_ttl (self s) < clock (world s) - last_update (self s))%Z.

(** The engines reachable from a fresh object by rebuild attempts that all
    failed, whatever happens to the world in between. *)
Inductive never_built : Sys -> Prop :=
  | never_built_new ttl w :
      never_built {| self := new_state ttl; world := w |}
  | never_built_failed force s :
      never_built s -> (initialize_model force s).1 = Ok false ->
      never_built (initialize_model force s).2
  | never_built_world s w :
      never_built s -> never_built {| self := self s; world := w |}.

(** The keys of the full report other than [status]. *)
Definition other_fields : list string :=
  ["total_innovations"; "last_update"; "cache_ttl"; "tfidf_features";
   "similarity_matrix_shape"]%string.

(** Methods that only read. *)
Definition read_only {A} (m : M A) : Prop := forall s, (m s).2 = s.

(** The two refresh tests at the head of [get_recommendations]. *)
Definition refresh_if_absent (s : Sys) : result bool * Sys :=
  if is_initialized (self s) then (Ok true, s) else initialize_model false s.

Definition refresh_if_expired (s : Sys) : result bool * Sys :=
  if (cache_ttl (self s) <? clock (world s) - last_update (self s))%Z
  then initialize_model false s else (Ok true, s).

(** The engines reachable from a fresh object by calls of the public
    methods, whatever happens to the world in between. *)
Inductive reachable : Sys -> Prop :=
  | reachable_new ttl w :
      reachable {| self := new_state ttl; world := w |}
  | reachable_initialize force s :
      reachable s -> reachable (initialize_model force s).2
  | reachable_recommend innovation_id top_n min_similarity s :
      reachable s ->
      reachable (get_recommendations innovation_id top_n min_similarity s).2
  | reachable_search query top_n s :
      reachable s -> reachable (search_innovations query top_n s).2
  | reachable_world s w :
      reachable s -> reachable {| self := self s; world := w |}.

(** A row as a rebuild leaves it. *)
Definition row_ok (r : Row) : Prop :=
  Text.nonblank (row_id r) = true
  /\ Text.nonblank (processed_text r) = true
  /\ combined_features r = deskripsi r ++ Text.space :: kategori r
  /\ Text.preprocess_text nltk_stopwords create_stemmer (combined_features r) None
     = Ok (processed_text r).

(** The attributes of the engine agree with each other: either nothing is
    set, or the flag is set together with a table of at least two well-formed
    rows, a vectorizer and a matrix. *)
Definition snapshot_ok (st : State) : Prop :=
  (is_initialized st = false
   /\ df st = None /\ tfidf st = None /\ cosine_sim st = None /\ last_update st = 0%Z)
  \/ (is_initialized st = true
      /\ exists d v m, df st = Some d /\ tfidf st = Some v /\ cosine_sim st = Some m
                       /\ (2 <= length d)%nat /\ Forall row_ok d).

(** ** The method [rebuild] follows its trace *)

Lemma bind_ok {A B} (m : M A) (f : A -> M B) s a s' :
  m s = (Ok a, s') -> (m ≫= f) s = f a s'.
Proof. intros H. unfold mbind, M_bind. now rewrite H. Qed.

Lemma bind_raise {A B} (m : M A) (f : A -> M B) s e s' :
  m s = (Raise e, s') -> (m ≫= f) s = (Raise e, s').
Proof. intros H. unfold mbind, M_bind. now rewrite H. Qed.

Lemma fetch_served s :
  _fetch_innovations_from_firebase s = (Ok (fetched (world s)), served s).
Proof.
  unfold _fetch_innovations_from_firebase, try_catch, fetched, served.
  unfold mbind, M_bind, stream_innovations; simpl.
  destruct (innovations (world s)); reflexivity.
Qed.

Lemma at_index_lt {A} (l : list A) i s :
  (i < length l)%nat -> exists x, l !! i = Some x /\ at_index l i s = (Ok x, s).
Proof.
  intros Hi. unfold at_index. destruct (l !! i) as [x|] eqn:E.
  - now exists x.
  - apply lookup_ge_None in E. lia.
Qed.

Lemma mapM_at_index {A} (l : list A) idxs s :
  Forall (fun i => i < length l)%nat idxs ->
  mapM (at_index l) idxs s = (Ok (select idxs l), s).
Proof.
  induction 1 as [|i idxs Hi _ IH]; [reflexivity|].
  destruct (at_index_lt l i s Hi) as (x & Hx & Hat).
  cbn [mapM]. erewrite bind_ok; [|exact Hat].
  erewrite bind_ok; [|exact IH].
  unfold select; simpl. rewrite Hx. reflexivity.
Qed.

Lemma valid_indices_lt (texts : list str) :
  Forall (fun i => i < length texts)%nat (valid_indices texts).
Proof.
  unfold valid_indices, enumerate. apply Forall_forall. intros i Hi.
  apply list_elem_of_In, in_map_iff in Hi as [[j x] [<- Hin]].
  apply filter_In in Hin as [Hin _].
  apply list_elem_of_In, elem_of_lookup_imap in Hin as (k & y & Heq & Hk).
  injection Heq as -> ->. simpl. eauto using lookup_lt_Some.
Qed.

Lemma normalized_length w texts :
  normalized w = Ok texts -> length texts = length (prepared w).
Proof.
  unfold normalized, Text.batch_preprocess_text, Text.get_stemmer.
  destruct create_stemmer; simpl; [|discriminate].
  intros [= <-]. now rewrite !length_map.
Qed.

Lemma length_select {A} (l : list A) idxs :
  Forall (fun i => i < length l)%nat idxs -> length (select idxs l) = length idxs.
Proof.
  induction 1 as [|i idxs Hi _ IH]; [reflexivity|].
  destruct (lookup_lt_is_Some_2 l i Hi) as [x Hx].
  unfold select in *; simpl. rewrite Hx. simpl. f_equal. exact IH.
Qed.

Lemma valid_texts_nonblank (texts : list str) :
  Forall (fun x => Text.nonblank x = true) (select (valid_indices texts) texts).
Proof.
  apply Forall_forall. intros x Hx.
  apply list_elem_of_omap in Hx as (i & Hi & Hix).
  unfold valid_indices, enumerate in Hi.
  apply list_elem_of_In, in_map_iff in Hi as [[j y] [<- Hin]].
  apply filter_In in Hin as [Hin Hy].
  apply list_elem_of_In, elem_of_lookup_imap in Hin as (k & z & Heq & Hk).
  injection Heq as -> ->. simpl in *. congruence.
Qed.

Lemma rebuild_trace t s :
  rebuild t s =
    match snapshot_of (world s) with
    | Some snap =>
        (Ok true, {| self := committed (self s) t snap; world := world (served s) |})
    | None => (Ok false, served s)
    end.
Proof.
  unfold rebuild, try_catch.
  rewrite (bind_ok _ _ _ _ _ (fetch_served s)).
  unfold snapshot_of.
  destruct (fetched (world s)) as [|doc0 docs] eqn:Hf; [reflexivity|].
  pose proof (normalized_length (world s)) as Hlen.
  unfold normalized in *. unfold prepared in *. rewrite Hf in *.
  destruct (_validate_and_clean_data (doc0 :: docs)) as [|row0 rows] eqn:Hc;
    [reflexivity|].
  remember (_create_combined_features (row0 :: rows)) as d eqn:Hd.
  destruct d as [|r rs]; [discriminate Hd|].
  unfold _batch_preprocess_texts.
  destruct (Text.batch_preprocess_text _ _ _ None) as [texts|e] eqn:Hn.
  2:{ erewrite bind_raise; [reflexivity|reflexivity]. }
  erewrite bind_ok; [|reflexivity].
  specialize (Hlen texts eq_refl).
  destruct (length (valid_indices texts) <? 2)%nat eqn:Hfew; [reflexivity|].
  pose proof (valid_indices_lt texts) as Hv.
  erewrite bind_ok.
  2:{ apply mapM_at_index. now rewrite <- Hlen. }
  erewrite bind_ok; [|now apply mapM_at_index].
  unfold _build_tfidf_matrix.
  rewrite (filter_all _ _ (valid_texts_nonblank texts)), (length_select _ _ Hv), Hfew.
  unfold _calculate_similarity_matrix, similarity_call, try_catch, lift.
  unfold mbind, M_bind, mret, M_ret.
  destruct (fit_transform _) as [[vectorizer tfidf_matrix]|e]; simpl; [|reflexivity].
  destruct (1000 <? length tfidf_matrix)%nat;
    [destruct (cosine_similarity_sparse _)|destruct (cosine_similarity _ _)];
    reflexivity.
Qed.

Lemma initialize_model_trace force s :
  initialize_model force s =
    if cache_is_fresh force (clock (world s)) (self s) then (Ok true, s)
    else rebuild (clock (world s)) s.
Proof.
  unfold initialize_model, time_time, get_self, mbind, M_bind.
  now destruct (cache_is_fresh _ _ _).
Qed.

Lemma step_failure_no_snapshot w : step_failure w -> snapshot_of w = None.
Proof.
  intros H. unfold snapshot_of.
  destruct (fetched w) as [|doc0 docs] eqn:Hf; [reflexivity|].
  destruct (prepared w) as [|r rs] eqn:Hp; [reflexivity|].
  destruct (normalized w) as [texts|e0] eqn:Hn; [|reflexivity].
  destruct (length (valid_indices texts) <? 2)%nat eqn:Hfew; [reflexivity|].
  apply Nat.ltb_ge in Hfew.
  assert (Hk : kept_texts w = select (valid_indices texts) texts)
    by (unfold kept_texts; now rewrite Hn).
  destruct H as [H|H|e H|texts' H Hlt|e H|v m e H Hs].
  - congruence.
  - unfold prepared in Hp. rewrite H in Hp. discriminate.
  - congruence.
  - assert (texts' = texts) by congruence. subst. lia.
  - rewrite Hk in H. now rewrite H.
  - rewrite Hk in H. rewrite H, Hs. reflexivity.
Qed.

Lemma rebuild_false_keeps_self t s :
  (rebuild t s).1 = Ok false -> self (rebuild t s).2 = self s.
Proof.
  rewrite rebuild_trace. destruct (snapshot_of (world s)); [discriminate|reflexivity].
Qed.

Lemma initialize_model_false_keeps_self force s :
  (initialize_model force s).1 = Ok false -> self (initialize_model force s).2 = self s.
Proof.
  rewrite initialize_model_trace.
  destruct (cache_is_fresh _ _ _); [reflexivity|apply rebuild_false_keeps_self].
Qed.

Lemma initialize_model_returns force s :
  exists b, (initialize_model force s).1 = Ok b.
Proof.
  rewrite initialize_model_trace, rebuild_trace.
  destruct (cache_is_fresh _ _ _); [now exists true|].
  destruct (snapshot_of (world s)); [now exists true|now exists false].
Qed.

(** C1. A rebuild attempt, by [initialize_model] or by [force_refresh], in
    which a step fails (empty fetch, no valid row after cleaning, an exception
    in the normalizer, fewer than two valid texts, a failing TF-IDF build, a
    failing similarity computation) returns [False] and leaves every attribute
    of the engine as it was; the methods never raise, and whenever one returns
    [False] the attributes [df], [tfidf], [cosine_sim], [last_update] and
    [is_initialized] are those from before the call. *)
Theorem failed_rebuild_keeps_snapshot (force : bool) (s : Sys) :
  (cache_is_fresh force (clock (world s)) (self s) = false ->
   step_failure (world s) ->
   (initialize_model force s).1 = Ok false
   /\ self (initialize_model force s).2 = self s)
  /\ (step_failure (world s) ->
      (force_refresh s).1 = Ok false /\ self (force_refresh s).2 = self s)
  /\ ((initialize_model force s).1 = Ok false ->
      self (initialize_model force s).2 = self s)
  /\ ((force_refresh s).1 = Ok false -> self (force_refresh s).2 = self s)
  /\ (exists b, (initialize_model force s).1 = Ok b)
  /\ (exists b, (force_refresh s).1 = Ok b).
Proof.
  assert (Hfailed : forall force',
            cache_is_fresh force' (clock (world s)) (self s) = false ->
            step_failure (world s) ->
            (initialize_model force' s).1 = Ok false
            /\ self (initialize_model force' s).2 = self s).
  { intros force' Hstale Hfail.
    assert (Hr : (initialize_model force' s).1 = Ok false).
    { rewrite initialize_model_trace, Hstale, rebuild_trace.
      now rewrite (step_failure_no_snapshot _ Hfail). }
    split; [exact Hr|]. now apply initialize_model_false_keeps_self. }
  split; [apply Hfailed|]. split; [|split; [|split; [|split]]].
  - intros Hfail. unfold force_refresh. now apply Hfailed.
  - apply initialize_model_false_keeps_self.
  - apply initialize_model_false_keeps_self.
  - apply initialize_model_returns.
  - apply initialize_model_returns.
Qed.

(** ** An engine that was never built *)

Lemma never_built_uninitialized s :
  never_built s -> is_initialized (self s) = false.
Proof.
  induction 1 as [ttl w|force s _ IH Hfail|s w _ IH]; simpl; try assumption.
  - reflexivity.
  - now rewrite (initialize_model_false_keeps_self _ _ Hfail).
Qed.

(** C10. On an engine that was never successfully built, the statistics
    report is the one-entry dictionary [{"status": "not_initialized"}]: the
    record count, last build time, TTL, vocabulary size and matrix shape are
    not among its keys. *)
Theorem stats_of_unbuilt_engine (s : Sys) :
  never_built s ->
  get_model_stats (self s) = {[ "status"%string := PStr "not_initialized" ]}
  /\ Forall (fun key => get_model_stats (self s) !! key = None) other_fields.
Proof.
  intros Hnb. apply never_built_uninitialized in Hnb.
  unfold get_model_stats. rewrite Hnb. simpl. split; [reflexivity|].
  unfold other_fields. repeat constructor.
Qed.

(** ** Retrieval and the cache *)

Lemma search_uninitialized query top_n s :
  is_initialized (self s) = false -> search_innovations query top_n s = (Ok [], s).
Proof.
  intros H. unfold search_innovations, get_self, mbind, M_bind. now rewrite H.
Qed.

Lemma recommend_unbuilt innovation_id top_n min_similarity s :
  is_initialized (self s) = false ->
  (initialize_model false s).1 = Ok false ->
  get_recommendations innovation_id top_n min_similarity s =
    (Ok [], if Text.nonblank innovation_id then (initialize_model false s).2 else s).
Proof.
  intros Hinit Hfail. unfold get_recommendations.
  destruct (Text.nonblank innovation_id); [|reflexivity]. simpl.
  unfold mbind, M_bind, get_self. rewrite Hinit. simpl.
  destruct (initialize_model false s) as [r s1]. simpl in Hfail. now subst r.
Qed.

(** C5. When the catalog yields fewer than two non-blank normalized texts,
    the vector-space builder returns the null pair for such texts, the
    build on a never-built engine returns [False], [get_recommendations] and
    [search_innovations] return the empty list, and the report obtained
    afterwards says [not_initialized]. *)
Theorem insufficient_data (s : Sys) :
  never_built s ->
  (length (kept_texts (world s)) < 2)%nat ->
  (forall texts s0, (length (List.filter Text.nonblank texts) < 2)%nat ->
     (_build_tfidf_matrix texts s0).1 = Ok (None, None))
  /\ (forall force, (initialize_model force s).1 = Ok false)
  /\ (forall innovation_id top_n min_similarity,
        (get_recommendations innovation_id top_n min_similarity s).1 = Ok []
        /\ get_model_stats
             (self (get_recommendations innovation_id top_n min_similarity s).2)
             !! "status"%string = Some (PStr "not_initialized"))
  /\ (forall query top_n,
        (search_innovations query top_n s).1 = Ok []
        /\ get_model_stats (self (search_innovations query top_n s).2)
             !! "status"%string = Some (PStr "not_initialized")).
Proof.
  intros Hnb Hfew.
  pose proof (never_built_uninitialized _ Hnb) as Hinit.
  assert (Hfail : forall force, (initialize_model force s).1 = Ok false).
  { intros force. rewrite initialize_model_trace.
    unfold cache_is_fresh. rewrite Hinit, andb_false_r. simpl.
    rewrite rebuild_trace.
    assert (Hnone : snapshot_of (world s) = None); [|now rewrite Hnone].
    apply step_failure_no_snapshot. unfold kept_texts in Hfew.
    destruct (normalized (world s)) as [texts|e] eqn:Hn.
    - apply too_few_texts with texts; [exact Hn|].
      now rewrite length_select in Hfew by apply valid_indices_lt.
    - now apply normalizer_raised with e. }
  assert (Hstats : forall st, is_initialized st = false ->
            get_model_stats st !! "status"%string = Some (PStr "not_initialized")).
  { intros st Hst. unfold get_model_stats. now rewrite Hst. }
  split; [|split; [exact Hfail|split]].
  - intros texts s0 Hlt. unfold _build_tfidf_matrix.
    apply Nat.ltb_lt in Hlt. now rewrite Hlt.
  - intros innovation_id top_n min_similarity.
    rewrite (recommend_unbuilt _ _ _ _ Hinit (Hfail false)). simpl.
    split; [reflexivity|]. apply Hstats.
    destruct (Text.nonblank innovation_id); [|exact Hinit].
    now rewrite (initialize_model_false_keeps_self _ _ (Hfail false)).
  - intros query top_n. rewrite (search_uninitialized _ _ _ Hinit). simpl.
    split; [reflexivity|now apply Hstats].
Qed.

Lemma read_only_ret {A} (a : A) : read_only (mret a).
Proof. now intros s. Qed.

Lemma read_only_raise {A} e : read_only (@raise A e).
Proof. now intros s. Qed.

Lemma read_only_lift {A} (r : result A) : read_only (lift r).
Proof. now intros s. Qed.

Lemma read_only_get_self : read_only get_self.
Proof. now intros s. Qed.

Lemma read_only_bind {A B} (m : M A) (f : A -> M B) :
  read_only m -> (forall a, read_only (f a)) -> read_only (m ≫= f).
Proof.
  intros Hm Hf s. unfold mbind, M_bind. specialize (Hm s).
  destruct (m s) as [[a|e] s1]; simpl in *; subst; [apply Hf|reflexivity].
Qed.

Lemma read_only_try_catch {A} (m : M A) (h : exn -> M A) :
  read_only m -> (forall e, read_only (h e)) -> read_only (try_catch m h).
Proof.
  intros Hm Hh s. unfold try_catch. specialize (Hm s).
  destruct (m s) as [[a|e] s1]; simpl in *; subst; [reflexivity|apply Hh].
Qed.

Lemma read_only_at_index {A} (l : list A) i : read_only (at_index l i).
Proof. intros s. unfold at_index. now destruct (l !! i). Qed.

Lemma read_only_not_none {A} (o : option A) : read_only (not_none o).
Proof. intros s. now destruct o. Qed.

Lemma read_only_mapM {A B} (f : A -> M B) (l : list A) :
  (forall a, read_only (f a)) -> read_only (mapM f l).
Proof.
  intros Hf. induction l as [|a l IH]; [apply read_only_ret|].
  cbn [mapM]. apply read_only_bind; [apply Hf|]. intros b.
  apply read_only_bind; [exact IH|]. intros k. apply read_only_ret.
Qed.

Create HintDb read_only.
#[local] Hint Resolve read_only_ret read_only_raise read_only_lift
  read_only_get_self read_only_at_index read_only_not_none : read_only.

Ltac read_only_step :=
  first
    [ apply read_only_bind; [|intros ?]
    | apply read_only_try_catch; [|intros ?]
    | apply read_only_mapM; intros ?
    | progress auto with read_only ].

Lemma read_only_materialize_serial d sim_scores :
  read_only (materialize_serial d sim_scores).
Proof.
  unfold materialize_serial, lookup_and_process. repeat read_only_step.
Qed.

Lemma read_only_materialize_parallel d sim_scores :
  read_only (materialize_parallel d sim_scores).
Proof.
  unfold materialize_parallel, lookup_and_process. repeat read_only_step.
Qed.

Lemma read_only_recommend_from_snapshot innovation_id top_n min_similarity :
  read_only (recommend_from_snapshot innovation_id top_n min_similarity).
Proof.
  unfold recommend_from_snapshot. repeat read_only_step.
  destruct (find_id _ _); repeat read_only_step.
  destruct (10 <? _)%nat;
    [apply read_only_materialize_parallel|apply read_only_materialize_serial].
Qed.

Lemma read_only_search_innovations query top_n :
  read_only (search_innovations query top_n).
Proof.
  unfold search_innovations. repeat read_only_step.
  destruct (_ || _); repeat read_only_step.
  destruct a0; repeat read_only_step.
  unfold search_results. repeat read_only_step.
  destruct (score_gtb _ _); repeat read_only_step.
Qed.

Lemma get_recommendations_trace innovation_id top_n min_similarity s :
  Text.nonblank innovation_id = true ->
  get_recommendations innovation_id top_n min_similarity s =
    match refresh_if_absent s with
    | (Ok true, s1) =>
        match refresh_if_expired s1 with
        | (Ok true, s2) => recommend_from_snapshot innovation_id top_n min_similarity s2
        | (Ok false, s2) => (Ok [], s2)
        | (Raise e, s2) => (Raise e, s2)
        end
    | (Ok false, s1) => (Ok [], s1)
    | (Raise e, s1) => (Raise e, s1)
    end.
Proof.
  intros Hid. unfold get_recommendations, refresh_if_absent, refresh_if_expired.
  rewrite Hid. simpl. unfold mbind, M_bind, get_self, time_time.
  destruct (is_initialized (self s)); simpl.
  - destruct (cache_ttl (self s) <? clock (world s) - last_update (self s))%Z; simpl;
      [|reflexivity].
    destruct (initialize_model false s) as [[[|]|e] s2]; reflexivity.
  - destruct (initialize_model false s) as [[[|]|e] s1]; simpl; try reflexivity.
    destruct (cache_ttl (self s1) <? clock (world s1) - last_update (self s1))%Z; simpl;
      [|reflexivity].
    destruct (initialize_model false s1) as [[[|]|e] s2]; reflexivity.
Qed.

Lemma queries_initialize_model force s :
  queries (world (initialize_model force s).2) =
    if cache_is_fresh force (clock (world s)) (self s) then queries (world s)
    else S (queries (world s)).
Proof.
  rewrite initialize_model_trace. destruct (cache_is_fresh _ _ _); [reflexivity|].
  rewrite rebuild_trace. now destruct (snapshot_of (world s)).
Qed.

Lemma queries_refresh_if_expired s :
  (queries (world s) <= queries (world (refresh_if_expired s).2))%nat.
Proof.
  unfold refresh_if_expired. destruct (_ <? _)%Z; [|reflexivity].
  rewrite queries_initialize_model. destruct (cache_is_fresh _ _ _); lia.
Qed.

Lemma stale_not_fresh s :
  stale s -> cache_is_fresh false (clock (world s)) (self s) = false.
Proof.
  unfold stale, cache_is_fresh. intros [H|H].
  - now rewrite H.
  - destruct (is_initialized (self s)); [|reflexivity]. simpl.
    apply Z.ltb_ge. lia.
Qed.

Lemma first_rebuild_state s :
  is_initialized (self s) = false ->
  (initialize_model false s).1 = Ok true ->
  is_initialized (self (initialize_model false s).2) = true
  /\ cache_ttl (self (initialize_model false s).2) = cache_ttl (self s)
  /\ last_update (self (initialize_model false s).2) = clock (world s)
  /\ clock (world (initialize_model false s).2)
     = (clock (world s) + latency (world s) (queries (world s)))%Z.
Proof.
  intros Hinit. rewrite initialize_model_trace. unfold cache_is_fresh.
  rewrite Hinit, rebuild_trace. simpl.
  destruct (snapshot_of (world s)); [|discriminate]. intros _. simpl. auto.
Qed.


(** ** Ranking *)

Lemma score_gtb_lt (a b : Q) : score_gtb a b = true <-> (b < a)%Q.
Proof.
  unfold score_gtb. rewrite negb_true_iff, <- not_true_iff_false, Qle_bool_iff.
  split; [apply Qnot_le_lt|apply Qlt_not_le].
Qed.

Lemma score_gtb_le (a b : Q) : score_gtb a b = false <-> (a <= b)%Q.
Proof.
  unfold score_gtb. rewrite negb_false_iff. apply Qle_bool_iff.
Qed.

Lemma Forall_insert_desc (P : nat * Q -> Prop) x l :
  P x -> Forall P l -> Forall P (insert_desc x l).
Proof.
  intros Hx. induction 1 as [|y l Hy Hl IH]; simpl; [now repeat constructor|].
  destruct (score_gtb y.2 x.2); repeat constructor; assumption.
Qed.

Lemma Forall_sorted_desc (P : nat * Q -> Prop) l :
  Forall P l -> Forall P (sorted_desc l).
Proof.
  induction 1 as [|x l Hx _ IH]; simpl; [constructor|].
  now apply Forall_insert_desc.
Qed.

Lemma insert_desc_sorted x l :
  StronglySorted ranks_before l -> Forall (by_index x) l ->
  StronglySorted ranks_before (insert_desc x l).
Proof.
  induction 1 as [|y l Hsorted IH Hy]; intros Hidx; simpl.
  - repeat constructor.
  - apply Forall_cons in Hidx as [Hxy Hidx].
    destruct (score_gtb y.2 x.2) eqn:Hcmp.
    + apply score_gtb_lt in Hcmp. constructor; [now apply IH|].
      apply Forall_insert_desc; [now left|assumption].
    + apply score_gtb_le in Hcmp.
      constructor; [now constructor|].
      assert (Hhead : ranks_before x y).
      { destruct (Qle_lt_or_eq _ _ Hcmp) as [Hlt|Heq]; [now left|right; split; assumption]. }
      constructor; [exact Hhead|].
      rewrite Forall_forall in Hy, Hidx |- *. intros z Hz.
      specialize (Hy z Hz). specialize (Hidx z Hz). unfold ranks_before, by_index in *.
      destruct Hy as [Hlt|[Heq Hlt]].
      * left. lra.
      * destruct (Qle_lt_or_eq _ _ Hcmp) as [Hlt'|Heq']; [left; lra|].
        right. split; [lra|assumption].
Qed.

Lemma sorted_desc_sorted l :
  StronglySorted by_index l -> StronglySorted ranks_before (sorted_desc l).
Proof.
  induction 1 as [|x l _ IH Hx]; simpl; [constructor|].
  apply insert_desc_sorted; [exact IH|now apply Forall_sorted_desc].
Qed.

Lemma StronglySorted_filter {A} (R : A -> A -> Prop) (f : A -> bool) l :
  StronglySorted R l -> StronglySorted R (List.filter f l).
Proof.
  induction 1 as [|x l _ IH Hx]; simpl; [constructor|].
  destruct (f x); [|exact IH]. constructor; [exact IH|].
  rewrite Forall_forall in Hx |- *. intros y Hy.
  apply Hx. apply list_elem_of_In. apply list_elem_of_In, filter_In in Hy. tauto.
Qed.

Lemma StronglySorted_sublist {A} (R : A -> A -> Prop) l1 l2 :
  sublist l1 l2 -> StronglySorted R l2 -> StronglySorted R l1.
Proof.
  induction 1 as [|x l1 l2 Hsub IH|x l1 l2 Hsub IH]; intros Hs.
  - constructor.
  - apply StronglySorted_inv in Hs as [Hs Hx]. constructor; [now apply IH|].
    rewrite Forall_forall in Hx |- *. intros y Hy. apply Hx.
    now apply (elem_of_sublist l1 l2).
  - apply StronglySorted_inv in Hs as [Hs _]. now apply IH.
Qed.

Lemma imap_by_index {A} (f : nat -> A -> nat * Q) (k : nat) (l : list A) :
  (forall i x, (f i x).1 = (k + i)%nat) ->
  StronglySorted by_index (imap f l) /\ Forall (fun p => k <= p.1)%nat (imap f l).
Proof.
  revert f k. induction l as [|x l IH]; intros f k Hf; simpl.
  - split; constructor.
  - destruct (IH (f ∘ S) (S k)) as [Hs Hk].
    { intros i y. simpl. rewrite Hf. lia. }
    split.
    + constructor; [exact Hs|]. eapply Forall_impl; [exact Hk|].
      intros p Hp. unfold by_index. rewrite Hf. simpl in Hp. lia.
    + constructor; [rewrite Hf; lia|]. eapply Forall_impl; [exact Hk|].
      intros p Hp. simpl in *. lia.
Qed.

Lemma ranked_sorted scores top_n min_similarity :
  StronglySorted ranks_before (ranked scores top_n min_similarity).
Proof.
  unfold ranked, slice_from_1.
  eapply StronglySorted_sublist; [apply sublist_drop|].
  eapply StronglySorted_sublist; [apply sublist_take|].
  apply sorted_desc_sorted, StronglySorted_filter.
  unfold enumerate. now apply (imap_by_index _ 0).
Qed.

Lemma Forall_sublist {A} (P : A -> Prop) l1 l2 :
  sublist l1 l2 -> Forall P l2 -> Forall P l1.
Proof.
  intros Hsub Hl. rewrite Forall_forall in Hl |- *.
  intros x Hx. apply Hl. now apply (elem_of_sublist l1 l2).
Qed.

Lemma ranked_scores scores top_n min_similarity :
  Forall (fun p => scores !! p.1 = Some p.2) (ranked scores top_n min_similarity).
Proof.
  unfold ranked, slice_from_1.
  eapply Forall_sublist; [apply sublist_drop|].
  eapply Forall_sublist; [apply sublist_take|].
  apply Forall_sorted_desc. apply Forall_forall. intros p Hp.
  apply list_elem_of_In, filter_In in Hp as [Hp _].
  apply list_elem_of_In, elem_of_lookup_imap in Hp as (i & x & -> & Hi).
  exact Hi.
Qed.

(** ** Rounding *)

Section Rounding.

Lemma round_half_even_mono (x y : Q) :
  (x <= y)%Q -> (round_half_even x <= round_half_even y)%Z.
Proof.
  intros Hxy. unfold round_half_even.
  pose proof (Qfloor_le x) as Hx1. pose proof (Qlt_floor x) as Hx2.
  pose proof (Qfloor_le y) as Hy1. pose proof (Qlt_floor y) as Hy2.
  pose proof (Qfloor_resp_le _ _ Hxy) as Hfl.
  rewrite inject_Z_plus in Hx2, Hy2.
  destruct (Z.eq_dec (Qfloor x) (Qfloor y)) as [Heq|Hne].
  - rewrite <- Heq in *.
    destruct (Qcompare_spec (x - inject_Z (Qfloor x)) (1 # 2)) as [Hx|Hx|Hx];
      destruct (Qcompare_spec (y - inject_Z (Qfloor x)) (1 # 2)) as [Hy|Hy|Hy];
      destruct (Z.even (Qfloor x)); try lia; exfalso; lra.
  - destruct (x - inject_Z (Qfloor x) ?= 1 # 2)%Q, (y - inject_Z (Qfloor y) ?= 1 # 2)%Q;
      destruct (Z.even (Qfloor x)), (Z.even (Qfloor y)); lia.
Qed.

Lemma round_half_even_near (x : Q) :
  (x - (1 # 2) <= inject_Z (round_half_even x))%Q
  /\ (inject_Z (round_half_even x) <= x + (1 # 2))%Q.
Proof.
  unfold round_half_even.
  pose proof (Qfloor_le x) as H1. pose proof (Qlt_floor x) as H2.
  rewrite inject_Z_plus in H2.
  destruct (Qcompare_spec (x - inject_Z (Qfloor x)) (1 # 2)) as [H|H|H];
    [destruct (Z.even (Qfloor x))| |]; rewrite ?inject_Z_plus;
    change (inject_Z 1) with 1%Q in *; split; lra.
Qed.

Local Open Scope Q_scope.

Lemma round_half_even_Z (z : Z) : round_half_even (inject_Z z) = z.
Proof.
  unfold round_half_even. rewrite Qfloor_Z.
  destruct (Qcompare_spec (inject_Z z - inject_Z z) (1 # 2)) as [H|H|H];
    [exfalso; lra|reflexivity|exfalso; lra].
Qed.

Lemma round_half_even_ge (z : Z) (x : Q) :
  inject_Z z <= x -> (z <= round_half_even x)%Z.
Proof.
  intros H. apply round_half_even_mono in H. now rewrite round_half_even_Z in H.
Qed.

Lemma round_half_even_le (z : Z) (x : Q) :
  x <= inject_Z z -> (round_half_even x <= z)%Z.
Proof.
  intros H. apply round_half_even_mono in H. now rewrite round_half_even_Z in H.
Qed.

Lemma pow2_pos (e : Z) : 0 < 2 ^ e.
Proof. now apply Qpower_0_lt. Qed.

Lemma pow2_succ (e : Z) : 2 ^ (e + 1) == 2 * 2 ^ e.
Proof. rewrite Qpower_plus by discriminate. rewrite Qpower_1_r. ring. Qed.

Lemma pow2_le (a b : Z) : (a <= b)%Z -> 2 ^ a <= 2 ^ b.
Proof. intros H. apply Qpower_le_compat_l; [exact H|discriminate]. Qed.

Lemma pow2_lt_inv (a b : Z) : 2 ^ a < 2 ^ b -> (a < b)%Z.
Proof. intros H. eapply Qpower_lt_compat_l_inv; [exact H|reflexivity]. Qed.

Lemma pow2_Z (a : Z) : (0 <= a)%Z -> inject_Z (2 ^ a) == 2 ^ a.
Proof. intros H. now rewrite Zpower_Qpower. Qed.

Lemma ilog2_spec (x : Q) : 0 < x -> 2 ^ ilog2 x <= x /\ x < 2 ^ (ilog2 x + 1).
Proof.
  intros Hx. unfold ilog2. destruct x as [n d]. cbn [Qnum Qden].
  assert (Hn : (0 < n)%Z) by (unfold Qlt in Hx; simpl in Hx; lia).
  pose proof (Z.log2_spec n Hn) as [Ha1 Ha2].
  pose proof (Z.log2_spec (Z.pos d) (Pos2Z.is_pos d)) as [Hb1 Hb2].
  pose proof (Z.log2_nonneg n) as Ha0. pose proof (Z.log2_nonneg (Z.pos d)) as Hb0.
  set (a := Z.log2 n) in *. set (b := Z.log2 (Z.pos d)) in *.
  rewrite <- Z.add_1_r, Z.pow_add_r, Z.pow_1_r in Ha2, Hb2 by lia.
  rewrite Zle_Qle, pow2_Z in Ha1, Hb1 by lia.
  rewrite Zlt_Qlt, inject_Z_mult, pow2_Z in Ha2, Hb2 by lia.
  assert (Hx' : n # d == inject_Z n / inject_Z (Z.pos d)) by apply Qmake_Qdiv.
  pose proof (pow2_pos a) as HA. pose proof (pow2_pos b) as HB.
  assert (He : 2 ^ (a - b) == 2 ^ a / 2 ^ b) by (apply Qpower_minus; discriminate).
  assert (He1 : 2 ^ (a - b + 1) == 2 * (2 ^ a / 2 ^ b)) by (now rewrite pow2_succ, He).
  assert (He0 : 2 * 2 ^ (a - b - 1) == 2 ^ a / 2 ^ b).
  { rewrite <- He, <- pow2_succ. now replace (a - b - 1 + 1)%Z with (a - b)%Z by lia. }
  change (inject_Z 2) with 2 in *.
  set (N := inject_Z n) in *. set (D := inject_Z (Z.pos d)) in *.
  set (A := 2 ^ a) in *. set (B := 2 ^ b) in *.
  assert (HD : 0 < D) by lra.
  assert (Hup : N / D < 2 * (A / B)).
  { apply Qlt_shift_div_r; [exact HD|].
    assert (Hmove : 2 * (A / B) * D == (2 * A * D) / B) by (field; lra).
    rewrite Hmove.
    apply Qlt_shift_div_l; [exact HB|]. nra. }
  assert (Hlow : A / B <= 2 * (N / D)).
  { apply Qle_shift_div_r; [exact HB|].
    assert (Hmove : 2 * (N / D) * B == (2 * N * B) / D) by (field; lra).
    rewrite Hmove.
    apply Qle_shift_div_l; [exact HD|]. nra. }
  destruct (Qle_bool (2 ^ (a - b)) (n # d)) eqn:Hc.
  - apply Qle_bool_iff in Hc. split; [exact Hc|]. rewrite He1, Hx'. exact Hup.
  - assert (Hlt : n # d < 2 ^ (a - b)).
    { apply Qnot_le_lt. intros H. apply Qle_bool_iff in H. congruence. }
    replace (a - b - 1 + 1)%Z with (a - b)%Z by lia. split; [|exact Hlt].
    rewrite Hx'. lra.
Qed.

Lemma round_half_even_proper (x y : Q) : x == y -> round_half_even x = round_half_even y.
Proof.
  intros H. apply Z.le_antisymm; apply round_half_even_mono; rewrite H; apply Qle_refl.
Qed.

Lemma round_half_even_opp (x : Q) : round_half_even (- x) = (- round_half_even x)%Z.
Proof.
  unfold round_half_even.
  pose proof (Qfloor_le x) as H1. pose proof (Qlt_floor x) as H2.
  pose proof (Qfloor_le (- x)) as H3. pose proof (Qlt_floor (- x)) as H4.
  rewrite inject_Z_plus in H2, H4. change (inject_Z 1) with 1 in *.
  set (n := Qfloor x) in *. set (m := Qfloor (- x)) in *.
  assert (Hm : m = (- n)%Z \/ m = (- n - 1)%Z).
  { assert (Ha : inject_Z n <= inject_Z (- m)) by (rewrite inject_Z_opp; lra).
    assert (Hb : inject_Z (- m - 1) < inject_Z (n + 1)).
    { assert (E1 : inject_Z (- m - 1) == - inject_Z m - 1).
      { unfold Z.sub. rewrite inject_Z_plus, inject_Z_opp. reflexivity. }
      assert (E2 : inject_Z (n + 1) == inject_Z n + 1).
      { rewrite inject_Z_plus. reflexivity. }
      rewrite E1, E2. lra. }
    rewrite <- Zle_Qle in Ha. rewrite <- Zlt_Qlt in Hb. lia. }
  destruct Hm as [Hm|Hm]; rewrite Hm in *; clear Hm.
  - rewrite inject_Z_opp in *.
    destruct (Qcompare_spec (x - inject_Z n) (1 # 2)) as [Hx|Hx|Hx];
      destruct (Qcompare_spec (- x - - inject_Z n) (1 # 2)) as [Hy|Hy|Hy];
      try (exfalso; lra). lia.
  - assert (Hi : inject_Z (- n - 1) == - inject_Z n - 1).
    { unfold Z.sub. rewrite inject_Z_plus, inject_Z_opp. reflexivity. }
    assert (Hev : Z.even (- n - 1) = negb (Z.even n)).
    { replace (- n - 1)%Z with (- (Z.succ n))%Z by lia.
      rewrite Z.even_opp, Z.even_succ. symmetry. apply Z.negb_even. }
    rewrite Hev.
    destruct (Qcompare_spec (x - inject_Z n) (1 # 2)) as [Hx|Hx|Hx];
      destruct (Qcompare_spec (- x - inject_Z (- n - 1)) (1 # 2)) as [Hy|Hy|Hy];
      rewrite Hi in Hy; try (exfalso; lra); destruct (Z.even n); simpl; lia.
Qed.

Lemma ilog2_le (x : Q) (k : Z) : 0 < x -> x < 2 ^ (k + 1) -> (ilog2 x <= k)%Z.
Proof.
  intros Hx Hk. destruct (ilog2_spec x Hx) as [H _].
  assert (Hlt : 2 ^ ilog2 x < 2 ^ (k + 1)) by (eapply Qle_lt_trans; eassumption).
  apply pow2_lt_inv in Hlt. lia.
Qed.

Lemma ilog2_ge (x : Q) (k : Z) : 0 < x -> 2 ^ k <= x -> (k <= ilog2 x)%Z.
Proof.
  intros Hx Hk. destruct (ilog2_spec x Hx) as [_ H].
  assert (Hlt : 2 ^ k < 2 ^ (ilog2 x + 1)) by (eapply Qle_lt_trans; eassumption).
  apply pow2_lt_inv in Hlt. lia.
Qed.

Lemma Qabs_pos_eq (x : Q) : 0 < x -> Qabs x = x.
Proof.
  destruct x as [n d]. unfold Qlt, Qabs. simpl. intros H. f_equal. apply Z.abs_eq. lia.
Qed.

Lemma ulp_opp (x : Q) : ulp (- x) = ulp x.
Proof. destruct x as [n d]. unfold ulp, Qabs, Qopp. simpl. now rewrite Z.abs_opp. Qed.

Lemma ulp_pos (x : Q) : 0 < ulp x.
Proof. apply pow2_pos. Qed.

Lemma float64_zero (x : Q) : x == 0 -> float64 x = 0.
Proof. intros H. unfold float64. now rewrite (proj1 (Qeq_alt x 0) H). Qed.

Lemma float64_nonzero (x : Q) :
  ~ x == 0 -> float64 x = inject_Z (round_half_even (x / ulp x)) * ulp x.
Proof.
  intros H. unfold float64. destruct (Qcompare_spec x 0) as [H0|_|_]; [contradiction| |];
    reflexivity.
Qed.

Lemma float64_opp (x : Q) : float64 (- x) == - float64 x.
Proof.
  destruct (Qeq_dec x 0) as [H0|H0].
  - rewrite (float64_zero x H0), (float64_zero (- x)); [reflexivity|]. rewrite H0. reflexivity.
  - rewrite (float64_nonzero x H0), (float64_nonzero (- x)), ulp_opp.
    + rewrite (round_half_even_proper (- x / ulp x) (- (x / ulp x))).
      * rewrite round_half_even_opp, inject_Z_opp. ring.
      * pose proof (ulp_pos x). field. lra.
    + intros H. apply H0. lra.
Qed.

(** The significand of a positive number stays within its 53 bits. *)
Lemma float64_upper (x : Q) (k : Z) :
  0 < x -> x < 2 ^ (k + 1) -> (-1022 <= k)%Z -> float64 x <= 2 ^ (k + 1).
Proof.
  intros Hx Hk Hmin.
  rewrite float64_nonzero by lra.
  pose proof (ulp_pos x) as Hu.
  assert (He : (Z.max (ilog2 (Qabs x)) (-1022) <= k)%Z).
  { rewrite (Qabs_pos_eq x Hx). pose proof (ilog2_le x k Hx Hk). lia. }
  set (E := Z.max (ilog2 (Qabs x)) (-1022)) in *.
  assert (HE : x < 2 ^ (E + 1)).
  { destruct (ilog2_spec x Hx) as [_ H]. eapply Qlt_le_trans; [exact H|].
    apply pow2_le. unfold E. rewrite (Qabs_pos_eq x Hx). lia. }
  assert (Hsplit : 2 ^ (E + 1) == inject_Z (2 ^ 53) * ulp x).
  { unfold ulp. fold E. rewrite pow2_Z by lia. rewrite <- Qpower_plus by discriminate.
    now replace (53 + (E - 52))%Z with (E + 1)%Z by lia. }
  assert (Hq : x / ulp x <= inject_Z (2 ^ 53)).
  { apply Qle_shift_div_r; [exact Hu|]. rewrite <- Hsplit. lra. }
  apply round_half_even_le in Hq. rewrite Zle_Qle in Hq.
  apply Qle_trans with (2 ^ (E + 1)); [|apply pow2_le; lia].
  rewrite Hsplit. apply Qmult_le_compat_r; [exact Hq|lra].
Qed.

Lemma float64_lower (x : Q) (k : Z) :
  0 < x -> 2 ^ k <= x -> (-1022 <= k)%Z -> 2 ^ k <= float64 x.
Proof.
  intros Hx Hk Hmin.
  rewrite float64_nonzero by lra.
  pose proof (ulp_pos x) as Hu.
  assert (He : (k <= Z.max (ilog2 (Qabs x)) (-1022))%Z).
  { rewrite (Qabs_pos_eq x Hx). pose proof (ilog2_ge x k Hx Hk). lia. }
  assert (HE : Z.max (ilog2 (Qabs x)) (-1022) = ilog2 x).
  { rewrite (Qabs_pos_eq x Hx) in *. pose proof (ilog2_ge x k Hx Hk). lia. }
  set (E := Z.max (ilog2 (Qabs x)) (-1022)) in *.
  assert (Hsplit : 2 ^ E == inject_Z (2 ^ 52) * ulp x).
  { unfold ulp. fold E. rewrite pow2_Z by lia. rewrite <- Qpower_plus by discriminate.
    now replace (52 + (E - 52))%Z with E by lia. }
  assert (Hq : inject_Z (2 ^ 52) <= x / ulp x).
  { apply Qle_shift_div_l; [exact Hu|]. rewrite <- Hsplit, HE.
    apply (ilog2_spec x Hx). }
  apply round_half_even_ge in Hq. rewrite Zle_Qle in Hq.
  apply Qle_trans with (2 ^ E); [apply pow2_le; lia|].
  rewrite Hsplit. apply Qmult_le_compat_r; [exact Hq|lra].
Qed.

Lemma float64_nonneg (x : Q) : 0 <= x -> 0 <= float64 x.
Proof.
  intros Hx. destruct (Qeq_dec x 0) as [H0|H0].
  - rewrite (float64_zero x H0). apply Qle_refl.
  - rewrite float64_nonzero by exact H0.
    pose proof (ulp_pos x) as Hu.
    assert (Hq : inject_Z 0 <= x / ulp x).
    { apply Qle_shift_div_l; [exact Hu|]. change (inject_Z 0) with 0. lra. }
    apply round_half_even_ge in Hq. rewrite Zle_Qle in Hq.
    apply Qmult_le_0_compat; [exact Hq|lra].
Qed.

Lemma float64_mono_pos (x y : Q) : 0 < x -> x <= y -> float64 x <= float64 y.
Proof.
  intros Hx Hxy. assert (Hy : 0 < y) by lra.
  destruct (ilog2_spec x Hx) as [Hx1 Hx2]. destruct (ilog2_spec y Hy) as [Hy1 Hy2].
  assert (Hlog : (ilog2 x <= ilog2 y)%Z) by (apply ilog2_le; [exact Hx|lra]).
  destruct (Z.eq_dec (Z.max (ilog2 x) (-1022)) (Z.max (ilog2 y) (-1022))) as [He|He].
  - assert (Hu : ulp x = ulp y).
    { unfold ulp. rewrite (Qabs_pos_eq x Hx), (Qabs_pos_eq y Hy). now rewrite He. }
    rewrite !float64_nonzero by lra. rewrite Hu.
    pose proof (ulp_pos y) as Hpos.
    apply Qmult_le_compat_r; [|lra]. rewrite <- Zle_Qle.
    apply round_half_even_mono. apply Qmult_le_compat_r; [exact Hxy|].
    apply Qlt_le_weak, Qinv_lt_0_compat, Hpos.
  - set (k := Z.max (ilog2 x) (-1022)).
    apply Qle_trans with (2 ^ (k + 1)).
    + apply float64_upper; [exact Hx| |unfold k; lia].
      eapply Qlt_le_trans; [exact Hx2|]. apply pow2_le. unfold k. lia.
    + apply Qle_trans with (2 ^ ilog2 y); [apply pow2_le; unfold k; lia|].
      apply float64_lower; [exact Hy|exact Hy1|lia].
Qed.

(** Rounding to the nearest binary64 number keeps the order. *)
Lemma float64_mono (x y : Q) : x <= y -> float64 x <= float64 y.
Proof.
  intros Hxy.
  destruct (Qlt_le_dec 0 x) as [Hx|Hx]; [now apply float64_mono_pos|].
  destruct (Qlt_le_dec y 0) as [Hy|Hy].
  - assert (H : float64 (- y) <= float64 (- x)) by (apply float64_mono_pos; lra).
    rewrite !float64_opp in H. lra.
  - apply Qle_trans with 0; [|now apply float64_nonneg].
    assert (H : 0 <= float64 (- x)) by (apply float64_nonneg; lra).
    rewrite float64_opp in H. lra.
Qed.

Lemma round4_mono (x y : Q) : x <= y -> round4 x <= round4 y.
Proof.
  intros Hxy. unfold round4. apply float64_mono. unfold Qdiv.
  apply Qmult_le_compat_r; [|discriminate].
  rewrite <- Zle_Qle. apply round_half_even_mono, float64_mono.
  apply Qmult_le_compat_r; [exact Hxy|discriminate].
Qed.

(** The nearest binary64 number is at most half a unit in the last place
    away. *)
Lemma float64_near (x : Q) :
  x - ulp x * (1 # 2) <= float64 x /\ float64 x <= x + ulp x * (1 # 2).
Proof.
  pose proof (ulp_pos x) as Hu. set (u := ulp x) in *.
  destruct (Qeq_dec x 0) as [H0|H0].
  - rewrite (float64_zero x H0). split; lra.
  - rewrite float64_nonzero by exact H0. fold u.
    destruct (round_half_even_near (x / u)) as [H1 H2].
    set (r := inject_Z (round_half_even (x / u))) in *.
    assert (Hlo : x - u * (1 # 2) == (x / u - (1 # 2)) * u) by (field; lra).
    assert (Hhi : x + u * (1 # 2) == (x / u + (1 # 2)) * u) by (field; lra).
    rewrite Hlo, Hhi. split; (apply Qmult_le_compat_r; [assumption|lra]).
Qed.

Lemma ulp_le (x : Q) (k : Z) :
  Qabs x < 2 ^ (k + 1) -> (-1022 <= k)%Z -> ~ x == 0 -> ulp x <= 2 ^ (k - 52).
Proof.
  intros Hk Hmin H0. unfold ulp. apply pow2_le.
  assert (Hpos : 0 < Qabs x).
  { pose proof (Qabs_nonneg x) as Hge. destruct (Qeq_dec (Qabs x) 0) as [Hz|Hz]; [|lra].
    exfalso. apply H0. revert Hz. apply Qabs_case; intros; lra. }
  pose proof (ilog2_le (Qabs x) k Hpos Hk). lia.
Qed.

Lemma float64_err (x : Q) (k : Z) :
  Qabs x < 2 ^ (k + 1) -> (-1022 <= k)%Z ->
  x - 2 ^ (k - 53) <= float64 x /\ float64 x <= x + 2 ^ (k - 53).
Proof.
  intros Hk Hmin. pose proof (pow2_pos (k - 53)) as Hpos.
  destruct (Qeq_dec x 0) as [H0|H0].
  - rewrite (float64_zero x H0). split; lra.
  - pose proof (ulp_le x k Hk Hmin H0) as Hu. destruct (float64_near x) as [H1 H2].
    assert (Hhalf : 2 ^ (k - 52) == 2 * 2 ^ (k - 53)).
    { rewrite <- pow2_succ. now replace (k - 53 + 1)%Z with (k - 52)%Z by lia. }
    split; lra.
Qed.

(** On scores between -1.5 and 1.5, NumPy's rounding to four places stays
    within half a unit of the fourth place, up to the errors of its three
    floating-point operations. *)
Lemma round4_near (score : Q) :
  - (3 # 2) <= score -> score <= 3 # 2 ->
  score - (1 # 20000) - (1 # 1000000000000000) <= round4 score
  /\ round4 score <= score + (1 # 20000) + (1 # 1000000000000000).
Proof.
  intros Hlo Hhi. unfold round4.
  destruct (float64_err (score * 10000) 13) as [Hy1 Hy2]; [|lia|].
  { apply Qabs_Qlt_condition. change (2 ^ (13 + 1)) with 16384. split; lra. }
  change (2 ^ (13 - 53)) with (1 # 1099511627776) in Hy1, Hy2.
  destruct (round_half_even_near (float64 (score * 10000))) as [Hr1 Hr2].
  set (r := inject_Z (round_half_even (float64 (score * 10000)))) in *.
  assert (Hq : r / 10000 == r * (1 # 10000)) by (field; discriminate).
  destruct (float64_err (r / 10000) 0) as [Hq1 Hq2]; [|lia|].
  { apply Qabs_Qlt_condition. change (2 ^ (0 + 1)) with 2. rewrite Hq. split; lra. }
  change (2 ^ (0 - 53)) with (1 # 9007199254740992) in Hq1, Hq2.
  set (z := float64 (r / 10000)) in *. rewrite Hq in Hq1, Hq2. split; lra.
Qed.

End Rounding.

Lemma ranks_before_le a b : ranks_before a b -> (b.2 <= a.2)%Q.
Proof. intros [H|[H _]]; lra. Qed.

Lemma response_of_fields d p r :
  response_of d p = Some r ->
  exists row, d !! p.1 = Some row /\ rec_id r = row_id row
              /\ similarity_score r = round4 p.2.
Proof.
  unfold response_of, _process_recommendation_row.
  destruct (d !! p.1) as [row|]; simpl; [|discriminate].
  destruct (response_valid _); [|discriminate].
  intros [= <-]. now exists row.
Qed.

Lemma lookup_and_process_ok d p s fut s' :
  lookup_and_process d p s = (Ok fut, s') -> response_of d p = fut.
Proof.
  unfold lookup_and_process, response_of, at_index, mbind, M_bind, mret, M_ret, raise.
  destruct (d !! p.1) as [row|]; simpl; [|discriminate]. now intros [= <- _].
Qed.

Lemma mapM_lookup_and_process d sim_scores s futures s' :
  mapM (lookup_and_process d) sim_scores s = (Ok futures, s') ->
  Forall2 (fun p fut => response_of d p = fut) sim_scores futures.
Proof.
  revert s futures s'. induction sim_scores as [|p ps IH]; intros s futures s'.
  - intros [= <- _]. constructor.
  - cbn [mapM]. unfold mbind at 1, M_bind at 1.
    destruct (lookup_and_process d p s) as [[fut|e] s1] eqn:Hp; [|discriminate].
    unfold mbind at 1, M_bind at 1.
    destruct (mapM (lookup_and_process d) ps s1) as [[futs|e] s2] eqn:Hps; [|discriminate].
    intros [= <- _]. constructor; [|eapply IH; exact Hps].
    eapply lookup_and_process_ok; exact Hp.
Qed.

Lemma picks_of_futures d (sim_scores : list (nat * Q)) futures awaited :
  Forall2 (fun p fut => response_of d p = fut) sim_scores futures ->
  Forall2 (fun fut got => got = fut \/ got = None) futures awaited ->
  exists picks, sublist picks sim_scores
    /\ Forall2 (fun p r => response_of d p = Some r) picks (omap (fun rec => rec) awaited).
Proof.
  intros H. revert awaited.
  induction H as [|p fut ps futs Hp _ IH]; intros awaited Hw; inversion Hw; subst.
  - exists []. split; constructor.
  - destruct (IH _ H3) as (picks & Hsub & Hall).
    destruct y as [r|]; simpl.
    + exists (p :: picks). split; [now constructor|]. constructor; [|exact Hall].
      destruct H1 as [H1|H1]; [now rewrite H1|discriminate].
    + exists picks. split; [now constructor|exact Hall].
Qed.

Lemma awaited_same {A} (futures : list (option A)) :
  Forall2 (fun fut got => got = fut \/ got = None) futures futures.
Proof. induction futures; constructor; auto. Qed.

Lemma awaited_in_time {A} (g : nat -> bool) (futures : list (option A)) :
  Forall2 (fun fut got => got = fut \/ got = None) futures
    (imap (fun k rec => if g k then rec else None) futures).
Proof.
  revert g. induction futures as [|fut futs IH]; intros g; simpl; constructor.
  - destruct (g 0%nat); auto.
  - apply (IH (g ∘ S)).
Qed.

Lemma materialize_picks d sim_scores s recs s' :
  materialize_serial d sim_scores s = (Ok recs, s')
  \/ materialize_parallel d sim_scores s = (Ok recs, s') ->
  exists picks, sublist picks sim_scores
    /\ Forall2 (fun p r => response_of d p = Some r) picks recs.
Proof.
  unfold materialize_serial, materialize_parallel, mbind, M_bind.
  destruct (mapM (lookup_and_process d) sim_scores s) as [[futures|e] s1] eqn:Hm;
    [|intros [H|H]; discriminate].
  apply mapM_lookup_and_process in Hm.
  intros [[= <- _]|[= <- _]].
  - eapply picks_of_futures; [exact Hm|apply awaited_same].
  - eapply picks_of_futures; [exact Hm|apply awaited_in_time].
Qed.

Lemma recommend_from_snapshot_picks innovation_id top_n min_similarity s recs :
  (recommend_from_snapshot innovation_id top_n min_similarity s).1 = Ok recs ->
  recs <> [] ->
  exists d sim idx scores picks,
    df (self s) = Some d /\ cosine_sim (self s) = Some sim
    /\ find_id innovation_id d = Some idx /\ sim !! idx = Some scores
    /\ sublist picks (ranked scores top_n min_similarity)
    /\ Forall2 (fun p r => response_of d p = Some r) picks recs.
Proof.
  unfold recommend_from_snapshot, try_catch, mbind, M_bind, get_self, not_none, at_index.
  destruct (df (self s)) as [d|]; simpl; [|intros [= <-]; congruence].
  destruct (find_id innovation_id d) as [idx|] eqn:Hidx; simpl; [|intros [= <-]; congruence].
  destruct (cosine_sim (self s)) as [sim|]; simpl; [|intros [= <-]; congruence].
  destruct (sim !! idx) as [scores|] eqn:Hrow; simpl; [|intros [= <-]; congruence].
  intros Hrecs Hne.
  assert (Hm : materialize_serial d (ranked scores top_n min_similarity) s = (Ok recs, s)
               \/ materialize_parallel d (ranked scores top_n min_similarity) s = (Ok recs, s)).
  { destruct (10 <? length (ranked scores top_n min_similarity))%nat.
    - right. pose proof (read_only_materialize_parallel d
               (ranked scores top_n min_similarity) s) as Hro.
      destruct (materialize_parallel _ _ s) as [[r|e] s1]; simpl in *; subst; congruence.
    - left. pose proof (read_only_materialize_serial d
              (ranked scores top_n min_similarity) s) as Hro.
      destruct (materialize_serial _ _ s) as [[r|e] s1]; simpl in *; subst; congruence. }
  destruct (materialize_picks _ _ _ _ _ Hm) as (picks & Hsub & Hall).
  exists d, sim, idx, scores, picks. auto 10.
Qed.

Lemma get_recommendations_answer innovation_id top_n min_similarity s recs s' :
  get_recommendations innovation_id top_n min_similarity s = (Ok recs, s') ->
  recs <> [] ->
  (recommend_from_snapshot innovation_id top_n min_similarity s').1 = Ok recs.
Proof.
  intros Hrun Hne.
  destruct (Text.nonblank innovation_id) eqn:Hid.
  2:{ unfold get_recommendations in Hrun. rewrite Hid in Hrun.
      injection Hrun as <- _. congruence. }
  rewrite (get_recommendations_trace _ _ _ _ Hid) in Hrun.
  destruct (refresh_if_absent s) as [[[|]|e] s1]; [| |discriminate].
  2:{ injection Hrun as <- _. congruence. }
  destruct (refresh_if_expired s1) as [[[|]|e] s2]; [| |discriminate].
  2:{ injection Hrun as <- _. congruence. }
  pose proof (read_only_recommend_from_snapshot innovation_id top_n min_similarity s2) as Hro.
  rewrite Hrun in Hro. simpl in Hro. subst s'. now rewrite Hrun.
Qed.

Lemma StronglySorted_Forall2 {A B} (R1 : A -> A -> Prop) (R2 : B -> B -> Prop)
    (Q : A -> B -> Prop) l1 l2 :
  (forall a b x y, Q a x -> Q b y -> R1 a b -> R2 x y) ->
  Forall2 Q l1 l2 -> StronglySorted R1 l1 -> StronglySorted R2 l2.
Proof.
  intros HR H. induction H as [|a x l1 l2 Hax Hl IH]; intros Hs; [constructor|].
  apply StronglySorted_inv in Hs as [Hs Ha].
  constructor; [now apply IH|].
  clear IH Hs. induction Hl as [|b y l1 l2 Hby Hl IH]; [constructor|].
  apply Forall_cons in Ha as [Hab Ha]. constructor; [|now apply IH].
  now apply (HR a b).
Qed.


Lemma queries_rebuild t s :
  queries (world (rebuild t s).2) = S (queries (world s)).
Proof. rewrite rebuild_trace. now destruct (snapshot_of (world s)). Qed.

(** ** The snapshot invariant *)

Lemma Forall_zip_select {A B C} (f : A -> B -> C) (P : C -> Prop)
    (l1 : list A) (l2 : list B) idxs :
  length l1 = length l2 ->
  (forall i a b, i ∈ idxs -> l1 !! i = Some a -> l2 !! i = Some b -> P (f a b)) ->
  Forall P (zip_with f (select idxs l1) (select idxs l2)).
Proof.
  intros Hlen. induction idxs as [|i idxs IH]; intros HP; [constructor|].
  assert (IH' : Forall P (zip_with f (select idxs l1) (select idxs l2))).
  { apply IH. intros j a b Hj. apply HP. now right. }
  unfold select in *. simpl.
  destruct (l1 !! i) as [a|] eqn:Ha; destruct (l2 !! i) as [b|] eqn:Hb; simpl.
  - constructor; [|exact IH']. apply (HP i); [now left|assumption..].
  - apply lookup_lt_Some in Ha. apply lookup_ge_None in Hb. lia.
  - apply lookup_lt_Some in Hb. apply lookup_ge_None in Ha. lia.
  - exact IH'.
Qed.

Lemma prepared_rows w :
  Forall (fun r => Text.nonblank (row_id r) = true
                   /\ combined_features r = deskripsi r ++ Text.space :: kategori r)
    (prepared w).
Proof.
  unfold prepared, _create_combined_features, _validate_and_clean_data.
  apply Forall_forall. intros r Hr.
  apply list_elem_of_In, in_map_iff in Hr as (r0 & <- & Hr0).
  split; [|reflexivity]. simpl.
  destruct (fetched w) as [|doc0 docs]; [contradiction|].
  apply in_map_iff in Hr0 as ([id d] & <- & Hin).
  apply filter_In in Hin as [_ Hid]. exact Hid.
Qed.

Lemma lookup_map {A B} (f : A -> B) (l : list A) i :
  map f l !! i = f <$> (l !! i).
Proof. exact (list_lookup_fmap f l i). Qed.

Lemma normalized_texts w texts i r t :
  normalized w = Ok texts -> prepared w !! i = Some r -> texts !! i = Some t ->
  Text.preprocess_text nltk_stopwords create_stemmer (combined_features r) None = Ok t.
Proof.
  unfold normalized, Text.batch_preprocess_text.
  destruct (Text.get_stemmer create_stemmer) as [stemmer|e]; simpl; [|discriminate].
  intros [= <-] Hr Ht.
  rewrite !lookup_map, Hr in Ht. simpl in Ht.
  rewrite (Text.preprocess_text_default nltk_stopwords create_stemmer _ None) in Ht.
  rewrite Text.preprocess_text_final in Ht |- *. simpl in Ht. congruence.
Qed.

Lemma valid_indices_nonblank (texts : list str) i t :
  i ∈ valid_indices texts -> texts !! i = Some t -> Text.nonblank t = true.
Proof.
  unfold valid_indices, enumerate. intros Hi Ht.
  apply list_elem_of_In, in_map_iff in Hi as [[j y] [<- Hin]].
  apply filter_In in Hin as [Hin Hy].
  apply list_elem_of_In, elem_of_lookup_imap in Hin as (k & z & Heq & Hk).
  injection Heq as -> ->. simpl in *. congruence.
Qed.

Lemma snapshot_rows w d v m :
  snapshot_of w = Some (d, v, m) -> (2 <= length d)%nat /\ Forall row_ok d.
Proof.
  unfold snapshot_of.
  destruct (fetched w) as [|doc0 docs]; [discriminate|].
  destruct (prepared w) as [|r0 rs] eqn:Hp; [discriminate|].
  destruct (normalized w) as [texts|e] eqn:Hn; [|discriminate].
  destruct (length (valid_indices texts) <? 2)%nat eqn:Hfew; [discriminate|].
  apply Nat.ltb_ge in Hfew.
  destruct (fit_transform _) as [[v0 m0]|e]; [|discriminate].
  destruct (similarity_call m0) as [sim|e]; [|discriminate].
  intros [= <- _ _].
  pose proof (normalized_length _ _ Hn) as Hlen. rewrite Hp in Hlen.
  pose proof (valid_indices_lt texts) as Hlt.
  split.
  - rewrite length_zip_with, !length_select; [lia|exact Hlt|now rewrite <- Hlen].
  - apply Forall_zip_select; [now symmetry|].
    intros i r t Hi Hr Ht.
    pose proof (prepared_rows w) as Hrows. rewrite Hp, Forall_forall in Hrows.
    destruct (Hrows r) as [Hid Hcf]; [eapply list_elem_of_lookup_2, Hr|].
    rewrite <- Hp in Hr.
    unfold row_ok. simpl. repeat split; try assumption.
    + eapply valid_indices_nonblank; eassumption.
    + eapply normalized_texts; eassumption.
Qed.

Lemma rebuild_keeps_ok t s :
  snapshot_ok (self s) -> snapshot_ok (self (rebuild t s).2).
Proof.
  intros Hok. rewrite rebuild_trace.
  destruct (snapshot_of (world s)) as [[[d v] m]|] eqn:Hsnap; [|exact Hok].
  right. simpl. split; [reflexivity|]. exists d, v, m.
  destruct (snapshot_rows _ _ _ _ Hsnap). auto.
Qed.

Lemma initialize_model_keeps_ok force s :
  snapshot_ok (self s) -> snapshot_ok (self (initialize_model force s).2).
Proof.
  intros Hok. rewrite initialize_model_trace.
  destruct (cache_is_fresh _ _ _); [exact Hok|now apply rebuild_keeps_ok].
Qed.

Lemma get_recommendations_keeps_ok innovation_id top_n min_similarity s :
  snapshot_ok (self s) ->
  snapshot_ok (self (get_recommendations innovation_id top_n min_similarity s).2).
Proof.
  intros Hok. destruct (Text.nonblank innovation_id) eqn:Hid.
  2:{ unfold get_recommendations. now rewrite Hid. }
  rewrite (get_recommendations_trace _ _ _ _ Hid).
  assert (H1 : snapshot_ok (self (refresh_if_absent s).2)).
  { unfold refresh_if_absent. destruct (is_initialized (self s)); [exact Hok|].
    now apply initialize_model_keeps_ok. }
  destruct (refresh_if_absent s) as [[[|]|e] s1]; simpl in H1; try exact H1.
  assert (H2 : snapshot_ok (self (refresh_if_expired s1).2)).
  { unfold refresh_if_expired. destruct (_ <? _)%Z; [|exact H1].
    now apply initialize_model_keeps_ok. }
  destruct (refresh_if_expired s1) as [[[|]|e] s2]; simpl in H2; try exact H2.
  now rewrite (read_only_recommend_from_snapshot innovation_id top_n min_similarity s2).
Qed.

Lemma reachable_ok s : reachable s -> snapshot_ok (self s).
Proof.
  induction 1 as [ttl w|force s _ IH|innovation_id top_n min_similarity s _ IH
                 |query top_n s _ IH|s w _ IH].
  - left. simpl. auto.
  - now apply initialize_model_keeps_ok.
  - now apply get_recommendations_keeps_ok.
  - now rewrite read_only_search_innovations.
  - exact IH.
Qed.

(** On every engine reached through the public methods the attributes
    agree: either the engine is not initialized and holds no table, no
    vectorizer and no matrix, or it is initialized and holds all three, the
    table having at least two rows, each with a non-blank id and a non-blank
    normalized text that is the normalizer's result on description, one space,
    category. *)
Theorem reachable_snapshot_invariant s :
  reachable s ->
  (is_initialized (self s) = false
   /\ df (self s) = None /\ tfidf (self s) = None /\ cosine_sim (self s) = None)
  \/ (is_initialized (self s) = true
      /\ exists d v m,
           df (self s) = Some d /\ tfidf (self s) = Some v /\ cosine_sim (self s) = Some m
           /\ (2 <= length d)%nat
           /\ Forall (fun r =>
                Text.nonblank (row_id r) = true
                /\ Text.nonblank (processed_text r) = true
                /\ Text.preprocess_text nltk_stopwords create_stemmer
                     (deskripsi r ++ Text.space :: kategori r) None
                   = Ok (processed_text r)) d).
Proof.
  intros Hr. destruct (reachable_ok s Hr) as [(Hi & Hd & Hv & Hm & _)|(Hi & d & v & m & H)].
  - left. auto.
  - right. split; [exact Hi|]. exists d, v, m.
    destruct H as (Hd & Hv & Hm & Hlen & Hrows). repeat split; try assumption.
    eapply Forall_impl; [exact Hrows|].
    intros r (Hid & Hpt & Hcf & Hpre). rewrite <- Hcf. auto.
Qed.

(** ** What retrieval returns *)

Lemma recommend_from_snapshot_returns innovation_id top_n min_similarity s :
  exists recs, (recommend_from_snapshot innovation_id top_n min_similarity s).1 = Ok recs.
Proof.
  unfold recommend_from_snapshot, try_catch.
  match goal with |- context [match ?m s with _ => _ end] => destruct (m s) as [[recs|e] s1] end;
    simpl; eauto.
Qed.

Lemma refresh_if_absent_returns s : exists b, (refresh_if_absent s).1 = Ok b.
Proof.
  unfold refresh_if_absent. destruct (is_initialized (self s)); [now exists true|].
  apply initialize_model_returns.
Qed.

Lemma refresh_if_expired_returns s : exists b, (refresh_if_expired s).1 = Ok b.
Proof.
  unfold refresh_if_expired. destruct (_ <? _)%Z; [|now exists true].
  apply initialize_model_returns.
Qed.

(** Neither retrieval method raises: a failing library call, a missing
    attribute or an index out of range ends in a returned list. *)
Theorem retrieval_never_raises s :
  (forall innovation_id top_n min_similarity,
     exists recs, (get_recommendations innovation_id top_n min_similarity s).1 = Ok recs)
  /\ (forall query top_n, exists recs, (search_innovations query top_n s).1 = Ok recs).
Proof.
  split.
  - intros innovation_id top_n min_similarity.
    destruct (Text.nonblank innovation_id) eqn:Hid.
    2:{ unfold get_recommendations. rewrite Hid. now exists []. }
    rewrite (get_recommendations_trace _ _ _ _ Hid).
    destruct (refresh_if_absent_returns s) as [b1 H1].
    destruct (refresh_if_absent s) as [r1 s1]. simpl in H1. subst r1.
    destruct b1; [|now exists []].
    destruct (refresh_if_expired_returns s1) as [b2 H2].
    destruct (refresh_if_expired s1) as [r2 s2]. simpl in H2. subst r2.
    destruct b2; [|now exists []].
    apply recommend_from_snapshot_returns.
  - intros query top_n. unfold search_innovations, get_self, mbind at 1, M_bind at 1.
    destruct (_ || _); [now exists []|]. unfold try_catch.
    match goal with |- context [match ?m s with _ => _ end] => destruct (m s) as [[recs|e] s1] end;
      simpl; eauto.
Qed.

Lemma length_ranked scores top_n min_similarity :
  (0 <= top_n)%Z ->
  (Z.of_nat (length (ranked scores top_n min_similarity)) <= top_n)%Z.
Proof.
  intros Hn. unfold ranked, slice_from_1.
  assert (H0 : (top_n + 1 <? 0)%Z = false) by (apply Z.ltb_ge; lia).
  rewrite H0, length_drop, length_take. lia.
Qed.

Lemma ranked_threshold scores top_n min_similarity :
  Forall (fun p => (min_similarity <= p.2)%Q) (ranked scores top_n min_similarity).
Proof.
  unfold ranked, slice_from_1.
  eapply Forall_sublist; [apply sublist_drop|].
  eapply Forall_sublist; [apply sublist_take|].
  apply Forall_sorted_desc, Forall_forall. intros p Hp.
  apply list_elem_of_In, filter_In in Hp as [_ Hp].
  unfold score_geb in Hp. now apply Qle_bool_iff.
Qed.

(** For a non-negative [top_n] a call returns at most [top_n]
    recommendations. *)
Theorem recommendations_at_most_top_n innovation_id top_n min_similarity s recs s' :
  (0 <= top_n)%Z ->
  get_recommendations innovation_id top_n min_similarity s = (Ok recs, s') ->
  (Z.of_nat (length recs) <= top_n)%Z.
Proof.
  intros Hn Hrun. destruct recs as [|r recs]; [simpl; lia|].
  assert (Hne : r :: recs <> []) by discriminate.
  pose proof (get_recommendations_answer _ _ _ _ _ _ Hrun Hne) as Hans.
  destruct (recommend_from_snapshot_picks _ _ _ _ _ Hans Hne)
    as (d & sim & idx & scores & picks & _ & _ & _ & _ & Hsub & Hall).
  apply Forall2_length in Hall. apply sublist_length in Hsub.
  pose proof (length_ranked scores top_n min_similarity Hn). lia.
Qed.

(** Every returned recommendation has a score that reached the threshold:
    its [similarity_score] is at least the threshold rounded to four
    places. *)
Theorem recommendations_reach_threshold innovation_id top_n min_similarity s recs s' :
  get_recommendations innovation_id top_n min_similarity s = (Ok recs, s') ->
  Forall (fun r => (round4 min_similarity <= similarity_score r)%Q) recs.
Proof.
  intros Hrun. destruct recs as [|r recs]; [constructor|].
  assert (Hne : r :: recs <> []) by discriminate.
  pose proof (get_recommendations_answer _ _ _ _ _ _ Hrun Hne) as Hans.
  destruct (recommend_from_snapshot_picks _ _ _ _ _ Hans Hne)
    as (d & sim & idx & scores & picks & _ & _ & _ & _ & Hsub & Hall).
  pose proof (Forall_sublist _ _ _ Hsub (ranked_threshold scores top_n min_similarity))
    as Hmin.
  clear Hrun Hans Hne Hsub. revert Hmin.
  induction Hall as [|p x picks' recs' Hp _ IH]; intros Hmin; [constructor|].
  apply Forall_cons in Hmin as [Hp0 Hmin]. constructor; [|now apply IH].
  apply response_of_fields in Hp as (_ & _ & _ & ->). now apply round4_mono.
Qed.

Lemma find_id_none innovation_id d :
  Forall (fun r => row_id r <> innovation_id) d -> find_id innovation_id d = None.
Proof.
  induction 1 as [|r d Hr _ IH]; [reflexivity|]. simpl.
  unfold Text.str_eqb. rewrite bool_decide_eq_false_2 by exact Hr. now rewrite IH.
Qed.

Lemma find_id_some innovation_id d idx :
  find_id innovation_id d = Some idx ->
  exists r, d !! idx = Some r /\ row_id r = innovation_id.
Proof.
  revert idx. induction d as [|r d IH]; intros idx; [discriminate|]. simpl.
  destruct (Text.str_eqb (row_id r) innovation_id) eqn:Heq.
  - intros [= <-]. exists r. split; [reflexivity|now apply Text.str_eqb_eq].
  - destruct (find_id innovation_id d) as [i|]; [|discriminate].
    intros [= <-]. now apply IH.
Qed.

(** An id that no row of the snapshot carries gives the empty list, and on
    an initialized engine within its TTL the call touches neither the engine
    nor the store. *)
Theorem unknown_id_gives_nothing innovation_id top_n min_similarity s d :
  is_initialized (self s) = true ->
  (clock (world s) - last_update (self s) <= cache_ttl (self s))%Z ->
  df (self s) = Some d ->
  Forall (fun r => row_id r <> innovation_id) d ->
  get_recommendations innovation_id top_n min_similarity s = (Ok [], s).
Proof.
  intros Hinit Hage Hd Hnone.
  destruct (Text.nonblank innovation_id) eqn:Hid.
  2:{ unfold get_recommendations. now rewrite Hid. }
  rewrite (get_recommendations_trace _ _ _ _ Hid).
  unfold refresh_if_absent, refresh_if_expired. rewrite Hinit.
  assert (Hfresh : (cache_ttl (self s) <? clock (world s) - last_update (self s))%Z = false)
    by (apply Z.ltb_ge; lia).
  rewrite Hfresh.
  unfold recommend_from_snapshot, try_catch, mbind, M_bind, get_self, not_none.
  rewrite Hd. simpl. now rewrite (find_id_none _ _ Hnone).
Qed.

(** The two TTL tests do not agree at the boundary.  On an initialized
    engine whose snapshot is exactly as old as the TTL,
    [get_recommendations] answers from the cache and leaves engine and store
    alone (it refreshes only beyond the TTL), while [initialize_model()]
    rebuilds (it returns early only below the TTL). *)
Theorem ttl_boundary s :
  is_initialized (self s) = true ->
  ((clock (world s) - last_update (self s) <= cache_ttl (self s))%Z ->
   forall innovation_id top_n min_similarity,
     (get_recommendations innovation_id top_n min_similarity s).2 = s)
  /\ ((clock (world s) - last_update (self s) < cache_ttl (self s))%Z ->
      initialize_model false s = (Ok true, s))
  /\ ((cache_ttl (self s) <= clock (world s) - last_update (self s))%Z ->
      queries (world (initialize_model false s).2) = S (queries (world s))).
Proof.
  intros Hinit. split; [|split].
  - intros Hage innovation_id top_n min_similarity.
    destruct (Text.nonblank innovation_id) eqn:Hid.
    2:{ unfold get_recommendations. now rewrite Hid. }
    rewrite (get_recommendations_trace _ _ _ _ Hid).
    unfold refresh_if_absent, refresh_if_expired. rewrite Hinit.
    assert (Hfresh : (cache_ttl (self s) <? clock (world s) - last_update (self s))%Z = false)
      by (apply Z.ltb_ge; lia).
    rewrite Hfresh. apply read_only_recommend_from_snapshot.
  - intros Hage. rewrite initialize_model_trace. unfold cache_is_fresh. rewrite Hinit.
    simpl. now rewrite (proj2 (Z.ltb_lt _ _) Hage).
  - intros Hage. rewrite queries_initialize_model. unfold cache_is_fresh. rewrite Hinit.
    simpl. now rewrite (proj2 (Z.ltb_ge _ _) Hage).
Qed.

(** [force_refresh] always queries the store once, whatever the age of
    the cache.  When it succeeds the new snapshot is built from the world
    alone: the engine is initialized, stamped with the clock reading, keeps
    its TTL, and any other engine with that TTL facing the same world ends in
    the same state. *)
Theorem force_refresh_rebuilds_wholesale s :
  queries (world (force_refresh s).2) = S (queries (world s))
  /\ ((force_refresh s).1 = Ok true ->
      is_initialized (self (force_refresh s).2) = true
      /\ last_update (self (force_refresh s).2) = clock (world s)
      /\ cache_ttl (self (force_refresh s).2) = cache_ttl (self s)
      /\ forall s', world s' = world s -> cache_ttl (self s') = cache_ttl (self s) ->
           force_refresh s' = force_refresh s).
Proof.
  unfold force_refresh. split; [apply queries_initialize_model|].
  rewrite initialize_model_trace. simpl. rewrite rebuild_trace.
  destruct (snapshot_of (world s)) as [snap|] eqn:Hsnap; [|discriminate].
  intros _. simpl. repeat split.
  intros s' Hw Httl. rewrite initialize_model_trace. simpl. rewrite rebuild_trace.
  rewrite Hw, Hsnap. unfold committed, served. now rewrite Hw, Httl.
Qed.

(** ** The error of the returned score *)

(** For a matrix entry between -1.5 and 1.5 (cosine scores lie between -1
    and 1, up to rounding), the score of the response that
    [_process_recommendation_row] builds is within 0.00005 of the entry, up to
    the errors of the three floating-point operations of NumPy's rounding
    (less than 1e-15).  The margin is needed: the binary64 number nearest to
    0.12345 is rounded to the one nearest to 0.1234, more than 0.00005
    away. *)
Theorem rounded_score_error :
  (forall row score r,
     _process_recommendation_row row score = Some r ->
     (- (3 # 2) <= score)%Q -> (score <= 3 # 2)%Q ->
     (score - (1 # 20000) - (1 # 1000000000000000) <= similarity_score r)%Q
     /\ (similarity_score r <= score + (1 # 20000) + (1 # 1000000000000000))%Q)
  /\ (forall row r,
        _process_recommendation_row row (float64 (12345 # 100000)) = Some r ->
        (similarity_score r == float64 (1234 # 10000))%Q
        /\ (similarity_score r < float64 (12345 # 100000) - (1 # 20000))%Q).
Proof.
  split.
  - intros row score r Hr Hlo Hhi. unfold _process_recommendation_row in Hr.
    destruct (response_valid _); [|discriminate]. injection Hr as <-. simpl.
    now apply round4_near.
  - intros row r Hr. unfold _process_recommendation_row in Hr.
    destruct (response_valid _); [|discriminate]. injection Hr as <-. simpl.
    split; vm_compute; reflexivity.
Qed.


Lemma picks_distinct (scores : list Q) picks :
  StronglySorted ranks_before picks ->
  Forall (fun p => scores !! p.1 = Some p.2) picks ->
  NoDup (map fst picks).
Proof.
  induction 1 as [|a picks _ IH Ha]; intros Hs; [constructor|].
  apply Forall_cons in Hs as [Hsa Hs]. simpl. constructor; [|now apply IH].
  intros Hin. apply list_elem_of_In, in_map_iff in Hin as (b & Hab & Hb).
  apply list_elem_of_In in Hb.
  rewrite Forall_forall in Ha, Hs. specialize (Ha b Hb). specialize (Hs b Hb).
  rewrite Hab, Hsa in Hs. injection Hs as Hs.
  destruct Ha as [Hlt|[_ Hlt]].
  - rewrite Hs in Hlt. now apply Qlt_irrefl in Hlt.
  - lia.
Qed.

Lemma response_of_row d p r :
  response_of d p = Some r ->
  exists row, d !! p.1 = Some row
    /\ rec_id r = row_id row /\ rec_inovasi r = namaInovasi row
    /\ rec_kategori r = kategori row /\ rec_deskripsi r = deskripsi row
    /\ rec_namaInnovator r = namaInnovator row
    /\ rec_tahunDibuat r = tahunDibuat row
    /\ similarity_score r = round4 p.2.
Proof.
  unfold response_of, _process_recommendation_row.
  destruct (d !! p.1) as [row|]; simpl; [|discriminate].
  destruct (response_valid _); [|discriminate].
  intros [= <-]. exists row. simpl. repeat split; reflexivity.
Qed.

(** The recommendations of one call come from pairwise different rows of
    the snapshot, and each copies its row: id, name, category, description,
    creator and year are those of the row, the score is the entry of the
    queried matrix row rounded to four places. *)
Theorem recommendations_from_distinct_rows
    innovation_id top_n min_similarity s recs s' :
  get_recommendations innovation_id top_n min_similarity s = (Ok recs, s') ->
  recs <> [] ->
  exists d sim idx scores idxs,
    df (self s') = Some d /\ cosine_sim (self s') = Some sim
    /\ find_id innovation_id d = Some idx /\ sim !! idx = Some scores
    /\ NoDup idxs
    /\ Forall2 (fun i r =>
         exists row score,
           d !! i = Some row /\ scores !! i = Some score
           /\ rec_id r = row_id row /\ rec_inovasi r = namaInovasi row
           /\ rec_kategori r = kategori row /\ rec_deskripsi r = deskripsi row
           /\ rec_namaInnovator r = namaInnovator row
           /\ rec_tahunDibuat r = tahunDibuat row
           /\ similarity_score r = round4 score) idxs recs.
Proof.
  intros Hrun Hne.
  pose proof (get_recommendations_answer _ _ _ _ _ _ Hrun Hne) as Hans.
  destruct (recommend_from_snapshot_picks _ _ _ _ _ Hans Hne)
    as (d & sim & idx & scores & picks & Hd & Hsim & Hidx & Hrow & Hsub & Hall).
  pose proof (StronglySorted_sublist _ _ _ Hsub (ranked_sorted scores top_n min_similarity))
    as Hsorted.
  pose proof (Forall_sublist _ _ _ Hsub (ranked_scores scores top_n min_similarity))
    as Hscores.
  exists d, sim, idx, scores, (map fst picks). repeat split; try assumption.
  - now apply (picks_distinct scores).
  - clear Hrun Hne Hans Hsub Hsorted. revert Hscores.
    induction Hall as [|p r picks' recs' Hp _ IH]; intros Hscores; [constructor|].
    apply Forall_cons in Hscores as [Hsp Hscores]. simpl.
    constructor; [|now apply IH].
    apply response_of_row in Hp as (row & Hrowp & Hfields).
    exists row, p.2. auto.
Qed.

(** ** When the query is left out *)

Lemma In_insert_desc x y l : In x (insert_desc y l) <-> x = y \/ In x l.
Proof.
  induction l as [|z l IH]; simpl.
  - split; intros [H|[]]; left; now symmetry.
  - destruct (score_gtb z.2 y.2); simpl; rewrite ?IH.
    + split; [intros [H|[H|H]]|intros [H|[H|H]]]; auto.
    + split; (intros [H|[H|H]]; [left; now symmetry|auto..]).
Qed.

Lemma In_sorted_desc x l : In x (sorted_desc l) <-> In x l.
Proof.
  induction l as [|y l IH]; simpl; [reflexivity|].
  rewrite In_insert_desc, IH.
  split; (intros [H|H]; [left; now symmetry|now right]).
Qed.

Lemma ranks_before_asym a b : ranks_before a b -> ranks_before b a -> False.
Proof. unfold ranks_before. intros [H1|[H1 H1']] [H2|[H2 H2']]; try lra; lia. Qed.

Lemma ranked_excludes_query scores idx own top_n min_similarity :
  scores !! idx = Some own ->
  (min_similarity <= own)%Q ->
  (forall j x, scores !! j = Some x -> j <> idx ->
     (x < own)%Q \/ ((x == own)%Q /\ (idx < j)%nat)) ->
  Forall (fun p => p.1 <> idx) (ranked scores top_n min_similarity).
Proof.
  intros Hown Hmin Hdom. unfold ranked, slice_from_1.
  set (kept := List.filter (fun p => score_geb p.2 min_similarity) (enumerate scores)).
  assert (Hsorted : StronglySorted ranks_before (sorted_desc kept)).
  { apply sorted_desc_sorted, StronglySorted_filter.
    unfold enumerate. now apply (imap_by_index _ 0). }
  assert (Hscores : Forall (fun p => scores !! p.1 = Some p.2) (sorted_desc kept)).
  { apply Forall_sorted_desc, Forall_forall. intros p Hp.
    apply list_elem_of_In, filter_In in Hp as [Hp _].
    apply list_elem_of_In, elem_of_lookup_imap in Hp as (i & x & -> & Hi). exact Hi. }
  assert (Hq : In (idx, own) (sorted_desc kept)).
  { apply In_sorted_desc, filter_In. split.
    - apply list_elem_of_In, elem_of_lookup_imap. now exists idx, own.
    - unfold score_geb. now apply Qle_bool_iff. }
  pose proof (picks_distinct scores _ Hsorted Hscores) as Hnodup.
  destruct (sorted_desc kept) as [|h t]; [contradiction|].
  assert (Hh : h = (idx, own)).
  { destruct Hq as [Hq|Hq]; [exact Hq|].
    apply StronglySorted_inv in Hsorted as [_ Hht].
    rewrite Forall_forall in Hht. specialize (Hht _ (proj2 (list_elem_of_In _ _) Hq)).
    apply Forall_cons in Hscores as [Hsh _]. destruct h as [j x]. simpl in *.
    destruct (Nat.eq_dec j idx) as [->|Hne]; [congruence|].
    exfalso. apply (ranks_before_asym _ _ Hht). exact (Hdom j x Hsh Hne). }
  subst h. simpl in Hnodup. apply NoDup_cons in Hnodup as [Hnotin _].
  assert (Ht : Forall (fun p => p.1 <> idx) t).
  { apply Forall_forall. intros p Hp Heq. apply Hnotin.
    rewrite <- Heq. apply list_elem_of_In, in_map, list_elem_of_In, Hp. }
  destruct (Z.to_nat _) as [|k]; simpl.
  - constructor.
  - rewrite drop_0. eapply Forall_sublist; [apply sublist_take|exact Ht].
Qed.

(** The query record is left out whenever it comes first in the order of
    the sort: its own score reaches the threshold, and every other entry of
    its matrix row is smaller, or equal at a later row.  Then, with pairwise
    different ids in the table, no returned recommendation carries the id of
    the query. *)
Theorem query_excluded_when_ranked_first
    innovation_id top_n min_similarity s recs s' d sim idx scores own :
  get_recommendations innovation_id top_n min_similarity s = (Ok recs, s') ->
  df (self s') = Some d -> cosine_sim (self s') = Some sim ->
  find_id innovation_id d = Some idx -> sim !! idx = Some scores ->
  scores !! idx = Some own ->
  (min_similarity <= own)%Q ->
  (forall j x, scores !! j = Some x -> j <> idx ->
     (x < own)%Q \/ ((x == own)%Q /\ (idx < j)%nat)) ->
  NoDup (map row_id d) ->
  Forall (fun r => rec_id r <> innovation_id) recs.
Proof.
  intros Hrun Hd Hsim Hidx Hrow Hown Hmin Hdom Hids.
  destruct recs as [|r0 recs0]; [constructor|].
  assert (Hne : r0 :: recs0 <> []) by discriminate.
  pose proof (get_recommendations_answer _ _ _ _ _ _ Hrun Hne) as Hans.
  destruct (recommend_from_snapshot_picks _ _ _ _ _ Hans Hne)
    as (d' & sim' & idx' & scores' & picks & Hd' & Hsim' & Hidx' & Hrow' & Hsub & Hall).
  assert (d' = d) by congruence. subst d'.
  assert (sim' = sim) by congruence. subst sim'.
  assert (idx' = idx) by congruence. subst idx'.
  assert (scores' = scores) by congruence. subst scores'.
  pose proof (Forall_sublist _ _ _ Hsub
                (ranked_excludes_query _ _ _ top_n _ Hown Hmin Hdom)) as Hother.
  destruct (find_id_some _ _ _ Hidx) as (rq & Hrq & Hidq).
  clear Hrun Hans Hne Hsub. revert Hother.
  induction Hall as [|p r picks' recs' Hp _ IH]; intros Hother; [constructor|].
  apply Forall_cons in Hother as [Hpi Hother]. constructor; [|now apply IH].
  apply response_of_fields in Hp as (row & Hrowp & Hid & _).
  intros Heq. apply Hpi.
  apply (NoDup_lookup (map row_id d) p.1 idx innovation_id Hids).
  - rewrite lookup_map, Hrowp. simpl. congruence.
  - rewrite lookup_map, Hrq. simpl. congruence.
Qed.

(** ** What a search returns *)

Lemma round4_hundredth (score : Q) :
  score_gtb score hundredth = true -> (1 # 100 <= round4 score)%Q.
Proof.
  intros H. apply score_gtb_lt in H.
  assert (Hr : (round4 hundredth <= round4 score)%Q) by (apply round4_mono; lra).
  assert (H0 : (1 # 100 <= round4 hundredth)%Q) by (vm_compute; discriminate).
  lra.
Qed.

Lemma search_step_spec d similarities idx s out s' :
  (score ← at_index similarities idx;
   if score_gtb score hundredth
   then row ← at_index d idx; mret (_process_recommendation_row row score)
   else mret None) s = (Ok out, s') ->
  forall r, out = Some r -> (1 # 100 <= similarity_score r)%Q.
Proof.
  unfold mbind, M_bind, at_index, mret, M_ret, raise.
  destruct (similarities !! idx) as [score|]; [|discriminate].
  destruct (score_gtb score hundredth) eqn:Hgt; [|intros [= <- _] r; discriminate].
  destruct (d !! idx) as [row|]; [|discriminate].
  intros [= <- _] r Hr. unfold _process_recommendation_row in Hr.
  destruct (response_valid _); [|discriminate]. injection Hr as <-. simpl.
  now apply round4_hundredth.
Qed.

Lemma search_results_spec d similarities top_indices s recs s' :
  search_results d similarities top_indices s = (Ok recs, s') ->
  (length recs <= length top_indices)%nat
  /\ Forall (fun r => (1 # 100 <= similarity_score r)%Q) recs.
Proof.
  unfold search_results. unfold mbind at 1, M_bind at 1.
  match goal with |- context [mapM ?g _ _] => set (step := g) end.
  destruct (mapM step top_indices s) as [[outs|e] s1] eqn:Hm; [|discriminate].
  intros [= <- _]. clear s'.
  revert s outs s1 Hm. induction top_indices as [|idx idxs IH]; intros s outs s1.
  - intros [= <- _]. split; [reflexivity|constructor].
  - cbn [mapM]. unfold mbind at 1, M_bind at 1.
    destruct (step idx s) as [[out|e] s2] eqn:Hstep; [|discriminate].
    unfold mbind at 1, M_bind at 1.
    destruct (mapM step idxs s2) as [[outs'|e] s3] eqn:Hrest; [|discriminate].
    intros [= <- _]. destruct (IH _ _ _ Hrest) as [Hlen Hall].
    pose proof (search_step_spec _ _ _ _ _ _ Hstep) as Hout.
    destruct out as [r|].
    + change (omap _ (Some r :: outs')) with (r :: omap (fun rec => rec) outs').
      split; [simpl; lia|]. constructor; [now apply Hout|exact Hall].
    + change (omap _ (None :: outs')) with (omap (fun rec : option RecommendationResponse => rec) outs').
      split; [simpl; lia|exact Hall].
Qed.

Lemma length_slice_last {A} (k : Z) (l : list A) :
  (1 <= k)%Z -> (Z.of_nat (length (slice_last k l)) <= k)%Z.
Proof.
  intros Hk. unfold slice_last.
  assert (H0 : (- k <? 0)%Z = true) by (apply Z.ltb_lt; lia).
  rewrite H0, length_drop. lia.
Qed.

(** Every search result has a rounded score of at least 0.01, and for
    [top_n] of 1 or more a search returns at most [top_n] results.  (For
    [top_n = 0] the slice [[-0:]] is the whole array.) *)
Theorem search_results_bounded query top_n s recs :
  (search_innovations query top_n s).1 = Ok recs ->
  Forall (fun r => (1 # 100 <= similarity_score r)%Q) recs
  /\ ((1 <= top_n)%Z -> (Z.of_nat (length recs) <= top_n)%Z).
Proof.
  unfold search_innovations, get_self. unfold mbind at 1, M_bind at 1.
  destruct (_ || _); [intros [= <-]; split; [constructor|simpl; lia]|].
  unfold try_catch.
  match goal with |- context [match ?m s with _ => _ end] =>
    destruct (m s) as [[recs'|e] s1] eqn:Hrun end;
    simpl; [|intros [= <-]; split; [constructor|simpl; lia]].
  intros [= ->]. revert Hrun.
  unfold mbind at 1, M_bind at 1, lift at 1.
  destruct (Text.preprocess_text _ _ query None) as [[|c processed]|e];
    [intros [= <- _]; split; [constructor|simpl; lia]| |discriminate].
  unfold mbind at 1, M_bind at 1, not_none at 1.
  destruct (tfidf (self s)) as [vectorizer|]; [|discriminate]. simpl.
  unfold mbind at 1, M_bind at 1, lift at 1.
  destruct (transform vectorizer _) as [query_vector|e]; [|discriminate].
  unfold mbind at 1, M_bind at 1, not_none at 1.
  destruct (df (self s)) as [d|]; [|discriminate]. simpl.
  unfold mbind at 1, M_bind at 1, lift at 1.
  destruct (transform vectorizer _) as [documents|e]; [|discriminate].
  unfold mbind at 1, M_bind at 1, lift at 1.
  destruct (cosine_similarity _ _) as [sim|e]; [|discriminate].
  intros Hres. apply search_results_spec in Hres as [Hlen Hall].
  split; [exact Hall|]. intros Hk.
  rewrite length_rev in Hlen.
  pose proof (length_slice_last top_n (argsort (concat sim)) Hk). lia.
Qed.

(** ** The stored texts and the wrapper of the text module *)

(** The text stored for a row of a snapshot is what the wrapper
    [process_innovation_text] of the text module returns on the description
    and the category of that row: the concatenation made by
    [_create_combined_features] and the one made by
    [preprocess_combined_features] with its default weight agree. *)
Theorem stored_texts_match_wrapper s d :
  reachable s -> df (self s) = Some d ->
  Forall (fun r =>
    Text.process_innovation_text nltk_stopwords create_stemmer
      (Some (deskripsi r)) (Some (kategori r)) = Ok (processed_text r)) d.
Proof.
  intros Hreach Hd.
  destruct (reachable_ok s Hreach) as [(_ & H0 & _)|(_ & d' & v & m & Hd' & _ & _ & _ & Hrows)];
    [congruence|].
  assert (d' = d) as -> by congruence.
  eapply Forall_impl; [exact Hrows|]. intros r (_ & _ & Hcomb & Htext).
  destruct (Text.process_innovation_text_combined nltk_stopwords create_stemmer
              (Some (deskripsi r)) (Some (kategori r)) 1 ltac:(lia)) as [_ ->].
  simpl. now rewrite <- Hcomb.
Qed.

(** ** The statistics of a built engine *)

(** On every initialized engine reached through the public methods the
    report has all six keys; the record count is at least 2 and the matrix
    shape is a shape: the fall-backs [0] and [None] of [get_model_stats]
    for a missing table or matrix are never taken. *)
Theorem stats_of_built_engine s :
  reachable s -> is_initialized (self s) = true ->
  get_model_stats (self s) !! "status"%string = Some (PStr "initialized")
  /\ (exists d, df (self s) = Some d /\ (2 <= length d)%nat
        /\ get_model_stats (self s) !! "total_innovations"%string
           = Some (PInt (Z.of_nat (length d))))
  /\ (exists rows cols,
        get_model_stats (self s) !! "similarity_matrix_shape"%string
        = Some (PShape rows cols))
  /\ get_model_stats (self s) !! "cache_ttl"%string = Some (PInt (cache_ttl (self s)))
  /\ Forall (fun key => is_Some (get_model_stats (self s) !! key)) other_fields.
Proof.
  intros Hreach Hinit.
  destruct (reachable_ok s Hreach) as [(H0 & _)|(_ & d & v & m & Hd & Hv & Hm & Hlen & _)];
    [congruence|].
  unfold get_model_stats. rewrite Hinit, Hd, Hv, Hm. cbn [negb].
  split; [reflexivity|]. split; [exists d; split; [reflexivity|split; [exact Hlen|reflexivity]]|].
  split; [eexists _, _; reflexivity|]. split; [reflexivity|].
  unfold other_fields. repeat constructor; eexists; reflexivity.
Qed.

End Engine.

Arguments self {Vectorizer} s.
Arguments world {Vectorizer} s.
Arguments df {Vectorizer} s.
Arguments tfidf {Vectorizer} s.
Arguments cosine_sim {Vectorizer} s.
Arguments cache_ttl {Vectorizer} s.
Arguments last_update {Vectorizer} s.
Arguments is_initialized {Vectorizer} s.
Arguments stale {Vectorizer} s.
Arguments get_model_stats {Vectorizer} n_features st.
Arguments new_state {Vectorizer} ttl.

(** ** A small catalog

    Stand-ins for the libraries, and the catalog of three innovations in
    which the first two have the same text.  With [min_df=2] the terms of the
    third occur in too few documents to enter the vocabulary, so its vector is
    null; the first two have the same vector. *)

Definition unit_vectors (texts : list str) : result (unit * Matrix) :=
  Ok (tt, map (fun _ => [1%Q]) texts).

Definition all_ones (x y : Matrix) : result Matrix :=
  Ok (map (fun _ => map (fun _ => 1%Q) y) x).

Definition accept_all (r : RecommendationResponse) : bool := true.

Definition always_in_time (k : nat) : bool := true.

Definition numpy_argsort (l : list Q) : list nat :=
  map fst (rev (sorted_desc (enumerate l))).

Definition document (text category : string) : result Document :=
  Ok {| doc_deskripsi := Some (py text); doc_kategori := Some (py category);
        doc_namaInovasi := Some (py "inovasi"); doc_namaInnovator := None;
        doc_images := None; doc_tahunDibuat := None |}.

Definition catalog : list (str * result Document) :=
  [ (py "a", document "aplikasi kesehatan digital" "kesehatan");
    (py "b", document "aplikasi kesehatan digital" "kesehatan");
    (py "c", document "mesin pertanian otomatis" "pertanian") ].

Definition world_at (t : Z) (docs : list (str * result Document)) : World :=
  {| clock := t; innovations := Ok docs; queries := 0; latency := fun _ => 0%Z |}.

Definition row (id text category processed : string) : Row :=
  {| row_id := py id; deskripsi := py text; kategori := py category;
     namaInovasi := py "inovasi"; namaInnovator := [];
     images := None; tahunDibuat := None;
     combined_features := py text ++ Text.space :: py category;
     processed_text := py processed |}.

(** The snapshot of that catalog, built at time 100. *)
Definition twin_snapshot : State unit :=
  {| df := Some [ row "a" "aplikasi kesehatan digital" "kesehatan"
                      "aplikasi sehat digital sehat";
                  row "b" "aplikasi kesehatan digital" "kesehatan"
                      "aplikasi sehat digital sehat";
                  row "c" "mesin pertanian otomatis" "pertanian"
                      "mesin tani otomatis tani" ];
     tfidf := Some tt;
     cosine_sim := Some [ [1; 1; 0]; [1; 1; 0]; [0; 0; 0] ]%Q;
     cache_ttl := 3600;
     last_update := 100;
     is_initialized := true |}.

Definition twin_engine : Sys unit :=
  {| self := twin_snapshot; world := world_at 160 catalog |}.

(** A fresh object facing the same catalog. *)
Definition fresh_engine : Sys unit :=
  {| self := new_state 3600; world := world_at 160 catalog |}.

(** A fresh object facing an empty store, and one facing a single record. *)
Definition empty_engine : Sys unit :=
  {| self := new_state 3600; world := world_at 160 [] |}.

Definition lonely_engine : Sys unit :=
  {| self := new_state 3600;
     world := world_at 160 [ (py "a", document "aplikasi kesehatan digital" "kesehatan") ] |}.

Definition response (id text category : string) (score : Q) : RecommendationResponse :=
  {| rec_id := py id; rec_inovasi := py "inovasi"; rec_kategori := py category;
     rec_deskripsi := py text; rec_namaInnovator := []; rec_images := [];
     rec_tahunDibuat := None; similarity_score := score |}.

(** The methods over the stand-in libraries. *)
Definition run_initialize_model :=
  initialize_model Text.nltk_missing Text.identity_stemmer unit unit_vectors all_ones
    (fun m => all_ones m m).

Definition run_get_recommendations :=
  get_recommendations Text.nltk_missing Text.identity_stemmer unit unit_vectors all_ones
    (fun m => all_ones m m) accept_all always_in_time.

Definition run_search_innovations :=
  search_innovations Text.nltk_missing Text.identity_stemmer unit (fun _ texts => (unit_vectors texts) ≫= (fun r => Ok r.2))
    all_ones numpy_argsort accept_all.

(** The snapshot above read an hour and more after it was built. *)
Definition stale_engine : Sys unit :=
  {| self := twin_snapshot; world := world_at 9000 catalog |}.

Definition unit_transform (v : unit) (texts : list str) : result Matrix :=
  unit_vectors texts ≫= (fun r => Ok r.2).

(** The engine after a first build on the catalog. *)
Definition built_engine : Sys unit := (run_initialize_model false fresh_engine).2.

(** The snapshot read exactly one TTL after it was built. *)
Definition boundary_engine : Sys unit :=
  {| self := twin_snapshot; world := world_at 3700 catalog |}.

Definition run_force_refresh :=
  force_refresh Text.nltk_missing Text.identity_stemmer unit unit_vectors all_ones
    (fun m => all_ones m m).

Definition run_recommend_from_snapshot :=
  recommend_from_snapshot unit accept_all always_in_time.

Definition twin_answer : list RecommendationResponse :=
  [response "b" "aplikasi kesehatan digital" "kesehatan" (round4 1)].

(** The old snapshot facing a store whose client raises. *)
Definition broken_store_engine : Sys unit :=
  {| self := twin_snapshot;
     world := {| clock := 9000; innovations := Raise StoreError; queries := 0;
                 latency := fun _ => 30%Z |} |}.

(** A fresh object facing a store so slow that a rebuild takes two hours,
    twice the TTL. *)
Definition slow_engine : Sys unit :=
  {| self := new_state 3600;
     world := {| clock := 160; innovations := Ok catalog; queries := 0;
                 latency := fun _ => 7200%Z |} |}.

(** A snapshot in which record [a] is nearly as close to [b] as to [c]:
    the binary64 scores 0.5 + 2^-16 and 0.5 + 2^-15 both round to 0.5. *)
Definition near_tie_snapshot : State unit :=
  {| df := df twin_snapshot;
     tfidf := Some tt;
     cosine_sim := Some [ [1; 32769 # 65536; 16385 # 32768];
                          [32769 # 65536; 1; 0];
                          [16385 # 32768; 0; 1] ]%Q;
     cache_ttl := 3600;
     last_update := 100;
     is_initialized := true |}.

Definition near_tie_engine : Sys unit :=
  {| self := near_tie_snapshot; world := world_at 160 catalog |}.

Definition near_tie_answer : list RecommendationResponse :=
  [response "c" "mesin pertanian otomatis" "pertanian" (round4 (16385 # 32768));
   response "b" "aplikasi kesehatan digital" "kesehatan" (round4 (32769 # 65536))].

(** ** The claims on the small catalog *)

(** Building the engine on the catalog: one query, and the stand-in
    libraries give a snapshot of three rows. *)
Example engine_on_catalog :
  let s := RecommendationEngine Text.nltk_missing Text.identity_stemmer unit
             unit_vectors all_ones (fun m => all_ones m m) 3600 (world_at 160 catalog) in
  is_initialized (self s) = true /\ last_update (self s) = 160%Z
  /\ queries (world s) = 1%nat
  /\ (length <$> df (self s)) = Some 3%nat.
Proof. vm_compute. repeat split; reflexivity. Qed.

(** C1 on an expired snapshot of three rows, facing a store whose client
    raises: both methods return [False] and the snapshot stays. *)
Lemma failed_rebuild_keeps_snapshot_witness :
  (length <$> df (self broken_store_engine)) = Some 3%nat
  /\ ((run_initialize_model false broken_store_engine).1 = Ok false
      /\ self (run_initialize_model false broken_store_engine).2 = twin_snapshot)
  /\ ((run_force_refresh broken_store_engine).1 = Ok false
      /\ self (run_force_refresh broken_store_engine).2 = twin_snapshot).
Proof.
  destruct (failed_rebuild_keeps_snapshot Text.nltk_missing Text.identity_stemmer unit
              unit_vectors all_ones (fun m => all_ones m m) false broken_store_engine)
    as (Hinit & Hforce & _).
  split; [reflexivity|]. split.
  - apply Hinit; [reflexivity|]. apply empty_fetch. reflexivity.
  - apply Hforce. apply empty_fetch. reflexivity.
Defined.

(** C10 on a fresh object. *)
Lemma stats_of_unbuilt_engine_witness :
  get_model_stats (fun _ : unit => 0%nat) (self empty_engine)
    = {[ "status"%string := PStr "not_initialized" ]}
  /\ Forall (fun key => get_model_stats (fun _ : unit => 0%nat) (self empty_engine) !! key = None)
       other_fields.
Proof.
  apply (stats_of_unbuilt_engine Text.nltk_missing Text.identity_stemmer unit unit_vectors
           (fun _ => 0%nat) all_ones (fun m => all_ones m m) empty_engine).
  apply never_built_new.
Defined.

(** C5 on the catalog of one record. *)
Lemma insufficient_data_witness :
  (run_initialize_model false lonely_engine).1 = Ok false
  /\ (run_get_recommendations (py "a") default_top_n default_min_similarity lonely_engine).1
       = Ok []
  /\ (run_search_innovations (py "aplikasi") 10 lonely_engine).1 = Ok [].
Proof.
  destruct (insufficient_data Text.nltk_missing Text.identity_stemmer unit unit_vectors
              (fun _ texts => unit_vectors texts ≫= (fun r => Ok r.2)) (fun _ => 0%nat)
              all_ones (fun m => all_ones m m) numpy_argsort accept_all always_in_time
              lonely_engine (never_built_new _ _ _ _ _ _ _ _))
    as (_ & Hbuild & Hrec & Hsearch).
  - vm_compute. lia.
  - split; [apply Hbuild|]. split; [apply Hrec|apply Hsearch].
Defined.



(** C2, the code at the failing input.  Record [b] has the same text as
    record [a] before it, so row [b] of the similarity matrix holds the score
    1 at index 0 and at its own index 1; the stable sort leaves index 0 first,
    the slice drops it, and the call for [b] returns [b] itself. *)
Theorem twin_recommends_itself :
  run_get_recommendations (py "b") default_top_n default_min_similarity twin_engine
    = (Ok [response "b" "aplikasi kesehatan digital" "kesehatan" (round4 1)], twin_engine).
Proof. vm_compute. reflexivity. Qed.



(** ** The further properties on the small catalog *)

Lemma built_engine_reachable :
  reachable Text.nltk_missing Text.identity_stemmer unit unit_vectors unit_transform
    all_ones (fun m => all_ones m m) numpy_argsort accept_all always_in_time built_engine.
Proof.
  exact (reachable_initialize _ _ _ _ _ _ _ _ _ _ false fresh_engine
           (reachable_new _ _ _ _ _ _ _ _ _ _ 3600 (world_at 160 catalog))).
Qed.

Lemma twin_call :
  run_get_recommendations (py "a") default_top_n default_min_similarity twin_engine
  = (Ok twin_answer, twin_engine).
Proof. vm_compute. reflexivity. Qed.

(** The invariant on the engine built on the catalog. *)
Lemma reachable_snapshot_invariant_witness :
  (is_initialized (self built_engine) = false
   /\ df (self built_engine) = None /\ tfidf (self built_engine) = None
   /\ cosine_sim (self built_engine) = None)
  \/ (is_initialized (self built_engine) = true
      /\ exists d v m,
           df (self built_engine) = Some d /\ tfidf (self built_engine) = Some v
           /\ cosine_sim (self built_engine) = Some m
           /\ (2 <= length d)%nat
           /\ Forall (fun r =>
                Text.nonblank (row_id r) = true
                /\ Text.nonblank (processed_text r) = true
                /\ Text.preprocess_text Text.nltk_missing Text.identity_stemmer
                     (deskripsi r ++ Text.space :: kategori r) None
                   = Ok (processed_text r)) d).
Proof.
  exact (reachable_snapshot_invariant Text.nltk_missing Text.identity_stemmer unit
           unit_vectors unit_transform all_ones (fun m => all_ones m m) numpy_argsort
           accept_all always_in_time built_engine built_engine_reachable).
Defined.

(** The wrapper on the rows of the engine built on the catalog. *)
Lemma stored_texts_match_wrapper_witness :
  (length <$> df (self built_engine)) = Some 3%nat
  /\ Forall (fun r =>
       Text.process_innovation_text Text.nltk_missing Text.identity_stemmer
         (Some (deskripsi r)) (Some (kategori r)) = Ok (processed_text r))
       (default [] (df (self built_engine))).
Proof.
  split; [vm_compute; reflexivity|].
  apply (stored_texts_match_wrapper Text.nltk_missing Text.identity_stemmer unit
           unit_vectors unit_transform all_ones (fun m => all_ones m m) numpy_argsort
           accept_all always_in_time built_engine _ built_engine_reachable).
  vm_compute. reflexivity.
Defined.

(** The report of the engine built on the catalog. *)
Lemma stats_of_built_engine_witness :
  let stats := get_model_stats (fun _ : unit => 1%nat) (self built_engine) in
  stats !! "status"%string = Some (PStr "initialized")
  /\ (exists d, df (self built_engine) = Some d /\ (2 <= length d)%nat
        /\ stats !! "total_innovations"%string = Some (PInt (Z.of_nat (length d))))
  /\ (exists rows cols, stats !! "similarity_matrix_shape"%string = Some (PShape rows cols))
  /\ stats !! "cache_ttl"%string = Some (PInt (cache_ttl (self built_engine)))
  /\ Forall (fun key => is_Some (stats !! key)) other_fields.
Proof.
  apply (stats_of_built_engine Text.nltk_missing Text.identity_stemmer unit
           unit_vectors unit_transform (fun _ => 1%nat) all_ones (fun m => all_ones m m)
           numpy_argsort accept_all always_in_time built_engine built_engine_reachable).
  vm_compute. reflexivity.
Defined.

(** The call for record [a] with the default [top_n] of 5. *)
Lemma recommendations_at_most_top_n_witness :
  run_get_recommendations (py "a") default_top_n default_min_similarity twin_engine
  = (Ok twin_answer, twin_engine)
  /\ (Z.of_nat (length twin_answer) <= default_top_n)%Z.
Proof.
  split; [exact twin_call|].
  apply (recommendations_at_most_top_n Text.nltk_missing Text.identity_stemmer unit
           unit_vectors all_ones (fun m => all_ones m m) accept_all always_in_time
           (py "a") default_top_n default_min_similarity twin_engine twin_answer twin_engine).
  - vm_compute. discriminate.
  - exact twin_call.
Defined.

(** The call for record [a] with the default threshold of 0.01. *)
Lemma recommendations_reach_threshold_witness :
  run_get_recommendations (py "a") default_top_n default_min_similarity twin_engine
  = (Ok twin_answer, twin_engine)
  /\ Forall (fun r => (round4 default_min_similarity <= similarity_score r)%Q) twin_answer.
Proof.
  split; [exact twin_call|].
  apply (recommendations_reach_threshold Text.nltk_missing Text.identity_stemmer unit
           unit_vectors all_ones (fun m => all_ones m m) accept_all always_in_time
           (py "a") default_top_n default_min_similarity twin_engine twin_answer twin_engine).
  exact twin_call.
Defined.

(** The call for an id that the catalog does not hold. *)
Lemma unknown_id_gives_nothing_witness :
  run_get_recommendations (py "z") default_top_n default_min_similarity twin_engine
  = (Ok [], twin_engine).
Proof.
  apply (unknown_id_gives_nothing Text.nltk_missing Text.identity_stemmer unit
           unit_vectors all_ones (fun m => all_ones m m) accept_all always_in_time
           (py "z") default_top_n default_min_similarity twin_engine
           (default [] (df twin_snapshot))).
  - reflexivity.
  - vm_compute. discriminate.
  - reflexivity.
  - repeat constructor; vm_compute; discriminate.
Defined.

(** The snapshot at the age of exactly one TTL, and one minute old. *)
Lemma ttl_boundary_witness :
  (run_get_recommendations (py "a") default_top_n default_min_similarity boundary_engine).2
  = boundary_engine
  /\ run_initialize_model false twin_engine = (Ok true, twin_engine)
  /\ queries (world (run_initialize_model false boundary_engine).2)
     = S (queries (world boundary_engine)).
Proof.
  pose proof (ttl_boundary Text.nltk_missing Text.identity_stemmer unit unit_vectors
                all_ones (fun m => all_ones m m) accept_all always_in_time
                boundary_engine eq_refl) as (Hcache & _ & Hbuild).
  pose proof (ttl_boundary Text.nltk_missing Text.identity_stemmer unit unit_vectors
                all_ones (fun m => all_ones m m) accept_all always_in_time
                twin_engine eq_refl) as (_ & Hearly & _).
  split; [|split].
  - apply Hcache. vm_compute. discriminate.
  - apply Hearly. vm_compute. reflexivity.
  - apply Hbuild. vm_compute. discriminate.
Defined.

(** A forced refresh of the snapshot that is one minute old. *)
Lemma force_refresh_rebuilds_wholesale_witness :
  queries (world (run_force_refresh twin_engine).2) = S (queries (world twin_engine))
  /\ is_initialized (self (run_force_refresh twin_engine).2) = true
  /\ last_update (self (run_force_refresh twin_engine).2) = clock (world twin_engine)
  /\ run_force_refresh fresh_engine = run_force_refresh twin_engine.
Proof.
  destruct (force_refresh_rebuilds_wholesale Text.nltk_missing Text.identity_stemmer unit
              unit_vectors all_ones (fun m => all_ones m m) twin_engine) as [Hq Hok].
  destruct Hok as (Hinit & Hstamp & _ & Hsame); [vm_compute; reflexivity|].
  split; [exact Hq|]. split; [exact Hinit|]. split; [exact Hstamp|].
  apply Hsame; reflexivity.
Defined.

Lemma near_tie_call :
  run_get_recommendations (py "a") default_top_n default_min_similarity near_tie_engine
  = (Ok near_tie_answer, near_tie_engine).
Proof. vm_compute. reflexivity. Qed.

(** The two recommendations of the call for record [a] in the snapshot
    with the near tie copy rows 2 and 1. *)
Lemma recommendations_from_distinct_rows_witness :
  exists d sim idx scores idxs,
    df (self near_tie_engine) = Some d /\ cosine_sim (self near_tie_engine) = Some sim
    /\ find_id (py "a") d = Some idx /\ sim !! idx = Some scores
    /\ NoDup idxs
    /\ Forall2 (fun i r =>
         exists row score,
           d !! i = Some row /\ scores !! i = Some score
           /\ rec_id r = row_id row /\ rec_inovasi r = namaInovasi row
           /\ rec_kategori r = kategori row /\ rec_deskripsi r = deskripsi row
           /\ rec_namaInnovator r = namaInnovator row
           /\ rec_tahunDibuat r = tahunDibuat row
           /\ similarity_score r = round4 score) idxs near_tie_answer.
Proof.
  apply (recommendations_from_distinct_rows Text.nltk_missing Text.identity_stemmer unit
           unit_vectors all_ones (fun m => all_ones m m) accept_all always_in_time
           (py "a") default_top_n default_min_similarity near_tie_engine near_tie_answer
           near_tie_engine).
  - exact near_tie_call.
  - discriminate.
Defined.

(** The score 0.5 + 2^-16 of row 1 is returned as 0.5, within the bound. *)
Lemma rounded_score_error_witness :
  ((32769 # 65536) - (1 # 20000) - (1 # 1000000000000000)
     <= similarity_score (response "b" "aplikasi kesehatan digital" "kesehatan"
                            (round4 (32769 # 65536))))%Q
  /\ (similarity_score (response "b" "aplikasi kesehatan digital" "kesehatan"
                          (round4 (32769 # 65536)))
      <= (32769 # 65536) + (1 # 20000) + (1 # 1000000000000000))%Q.
Proof.
  apply (proj1 (rounded_score_error accept_all)
           (row "b" "aplikasi kesehatan digital" "kesehatan" "aplikasi sehat digital sehat")
           (32769 # 65536)%Q).
  - reflexivity.
  - vm_compute. discriminate.
  - vm_compute. discriminate.
Defined.

(** Record [a] comes first in its own matrix row [[1; 1; 0]]: the call for
    [a] does not return [a]. *)
Lemma query_excluded_when_ranked_first_witness :
  run_get_recommendations (py "a") default_top_n default_min_similarity twin_engine
  = (Ok twin_answer, twin_engine)
  /\ Forall (fun r => rec_id r <> py "a") twin_answer.
Proof.
  split; [exact twin_call|].
  apply (query_excluded_when_ranked_first Text.nltk_missing Text.identity_stemmer unit
           unit_vectors all_ones (fun m => all_ones m m) accept_all always_in_time
           (py "a") default_top_n default_min_similarity twin_engine twin_answer twin_engine
           (default [] (df twin_snapshot)) [ [1; 1; 0]; [1; 1; 0]; [0; 0; 0] ]%Q
           0%nat [1; 1; 0]%Q 1%Q).
  - exact twin_call.
  - reflexivity.
  - reflexivity.
  - vm_compute. reflexivity.
  - reflexivity.
  - reflexivity.
  - vm_compute. discriminate.
  - intros [|[|[|j]]] x Hx Hj; simpl in Hx; try discriminate.
    + now contradiction Hj.
    + injection Hx as <-. right. split; [reflexivity|lia].
    + injection Hx as <-. left. reflexivity.
  - vm_compute.
    repeat (constructor; [rewrite ?list_elem_of_In; simpl; intuition discriminate|]).
    constructor.
Defined.

(** A search on the snapshot of the catalog. *)
Lemma search_results_bounded_witness :
  exists recs,
    (run_search_innovations (py "aplikasi") 2 twin_engine).1 = Ok recs
    /\ recs <> []
    /\ Forall (fun r => (1 # 100 <= similarity_score r)%Q) recs
    /\ (Z.of_nat (length recs) <= 2)%Z.
Proof.
  destruct (run_search_innovations (py "aplikasi") 2 twin_engine).1 as [recs|e] eqn:Hrun;
    [|vm_compute in Hrun; discriminate].
  exists recs. split; [reflexivity|].
  split; [vm_compute in Hrun; injection Hrun as <-; discriminate|].
  destruct (search_results_bounded Text.nltk_missing Text.identity_stemmer unit
              unit_transform all_ones numpy_argsort accept_all
              (py "aplikasi") 2 twin_engine recs Hrun) as [Hall Hlen].
  split; [exact Hall|]. apply Hlen. lia.
Defined.

End Engine.

(** * Concurrent callers of [initialize_model]

    Threads run [initialize_model] against one engine.  A thread reads the
    clock and tests the cache, then waits for [self.lock], then runs the
    rebuild while it holds the lock and frees it when it returns.  A
    schedule picks which thread moves next; the world may change between
    two moves. *)

Module Concurrent.
Import Engine.

Section Threads.

Variable nltk_stopwords : result (list str).
Variable create_stemmer : result (str -> result str).
Variable Vectorizer : Type.
Variable fit_transform : list str -> result (Vectorizer * Matrix).
Variable cosine_similarity : Matrix -> Matrix -> result Matrix.
Variable cosine_similarity_sparse : Matrix -> result Matrix.

(** Where a thread stands in [initialize_model]. *)
Inductive pc : Type :=
  | Calling (force_refresh : bool)  (* before [time.time()] and the TTL test *)
  | Waiting (current_time : Z)      (* at [with self.lock:] *)
  | Holding (current_time : Z)      (* inside the locked region *)
  | Returned (result : bool).

Record Config : Type := {
  sys : Sys Vectorizer;
  lock : bool;            (* [self.lock] is held *)
  threads : list pc;
}.

Inductive action : Type :=
  | Test (i : nat)        (* thread [i] reads the clock and tests the cache *)
  | Acquire (i : nat)     (* thread [i] takes the free lock *)
  | Rebuild (i : nat)     (* thread [i] runs the [try] block and frees the lock *)
  | Change (w : World).   (* time passes, the store changes *)

(** The [try] block of [initialize_model] at the given clock reading. *)
Definition locked_region (current_time : Z) (s : Sys Vectorizer) : bool * Sys Vectorizer :=
  let r := rebuild nltk_stopwords create_stemmer Vectorizer fit_transform
             cosine_similarity cosine_similarity_sparse current_time s in
  (match r.1 with Ok b => b | Raise _ => false end, r.2).

Definition exec (a : action) (c : Config) : option Config :=
  match a with
  | Test i =>
      match threads c !! i with
      | Some (Calling force_refresh) =>
          let current_time := clock (world (sys c)) in
          let next :=
            if cache_is_fresh Vectorizer force_refresh current_time (self (sys c))
            then Returned true else Waiting current_time in
          Some {| sys := sys c; lock := lock c; threads := <[i := next]> (threads c) |}
      | _ => None
      end
  | Acquire i =>
      match threads c !! i with
      | Some (Waiting current_time) =>
          if lock c then None
          else Some {| sys := sys c; lock := true;
                       threads := <[i := Holding current_time]> (threads c) |}
      | _ => None
      end
  | Rebuild i =>
      match threads c !! i with
      | Some (Holding current_time) =>
          let r := locked_region current_time (sys c) in
          Some {| sys := r.2; lock := false;
                  threads := <[i := Returned r.1]> (threads c) |}
      | _ => None
      end
  | Change w =>
      Some {| sys := {| self := self (sys c); world := w |}; lock := lock c;
              threads := threads c |}
  end.

Fixpoint run (schedule : list action) (c : Config) : option Config :=
  match schedule with
  | [] => Some c
  | a :: schedule => c' ← exec a c; run schedule c'
  end.

(** Every thread is about to call, and the lock is free. *)
Definition start (s : Sys Vectorizer) (calls : list bool) : Config :=
  {| sys := s; lock := false; threads := map Calling calls |}.

Definition is_holding (p : pc) : bool :=
  match p with Holding _ => true | _ => false end.

(** The number of threads inside the locked region. *)
Definition holders (c : Config) : nat := length (List.filter is_holding (threads c)).

(** The cache is initialized and younger than its TTL. *)
Definition fresh (s : Sys Vectorizer) : Prop :=
  cache_is_fresh Vectorizer false (clock (world s)) (self s) = true.

(** The part of one thread in [holders]. *)
Definition holding_weight (p : pc) : nat := if is_holding p then 1 else 0.

(** The lock is held exactly when one thread is inside the region. *)
Definition lock_invariant (c : Config) : Prop :=
  holders c = if lock c then 1%nat else 0%nat.

(** ** One thread at a time in the locked region *)

Lemma holders_insert (l : list pc) i p q :
  l !! i = Some p ->
  (length (List.filter is_holding (<[i := q]> l)) + holding_weight p
   = length (List.filter is_holding l) + holding_weight q)%nat.
Proof.
  revert i. induction l as [|x l IH]; intros i Hi; [discriminate|].
  destruct i as [|i]; simpl in *.
  - injection Hi as ->. unfold holding_weight.
    destruct (is_holding p), (is_holding q); simpl; lia.
  - specialize (IH i Hi). destruct (is_holding x); simpl; lia.
Qed.

Lemma exec_invariant a c c' :
  lock_invariant c -> exec a c = Some c' -> lock_invariant c'.
Proof.
  unfold lock_invariant, holders. intros Hinv Hexec.
  destruct a as [i|i|i|w]; simpl in Hexec.
  - destruct (threads c !! i) as [[force|t|t|r]|] eqn:Hi; try discriminate.
    injection Hexec as <-. cbn [threads lock].
    pose proof (holders_insert _ i _
      (if cache_is_fresh Vectorizer force (clock (world (sys c))) (self (sys c))
       then Returned true else Waiting (clock (world (sys c)))) Hi) as H.
    unfold holding_weight in H.
    destruct (cache_is_fresh _ _ _ _); cbn [is_holding] in H; lia.
  - destruct (threads c !! i) as [[force|t|t|r]|] eqn:Hi; try discriminate.
    destruct (lock c); [discriminate|]. injection Hexec as <-. cbn [threads lock].
    pose proof (holders_insert _ i _ (Holding t) Hi) as H.
    unfold holding_weight in H. cbn [is_holding] in H. lia.
  - destruct (threads c !! i) as [[force|t|t|r]|] eqn:Hi; try discriminate.
    injection Hexec as <-. cbn [threads lock].
    match goal with
    | |- context [<[i := ?q]> _] => pose proof (holders_insert _ i _ q Hi) as H
    end.
    unfold holding_weight in H. cbn [is_holding] in H. destruct (lock c); lia.
  - injection Hexec as <-. exact Hinv.
Qed.

Lemma run_invariant schedule c c' :
  lock_invariant c -> run schedule c = Some c' -> lock_invariant c'.
Proof.
  revert c. induction schedule as [|a schedule IH]; intros c Hinv; simpl.
  - now intros [= <-].
  - destruct (exec a c) as [c1|] eqn:Hexec; simpl; [|discriminate].
    apply IH. eapply exec_invariant; eassumption.
Qed.

Lemma start_invariant s calls : lock_invariant (start s calls).
Proof.
  unfold lock_invariant, holders, start. simpl.
  induction calls as [|b calls IH]; [reflexivity|exact IH].
Qed.

(** C4, as the code has it.  In every reachable configuration at most one
    thread is inside the locked region, and none when the lock is free.  The
    staleness test is made only before the lock is taken: a thread inside the
    region always queries the store for a full rebuild, whatever the state of
    the cache when it got the lock. *)
Theorem rebuilds_serialized_without_recheck :
  (forall s calls schedule c,
     run schedule (start s calls) = Some c ->
     (holders c <= 1)%nat /\ (lock c = false -> holders c = 0%nat))
  /\ (forall c i current_time c',
        threads c !! i = Some (Holding current_time) ->
        exec (Rebuild i) c = Some c' ->
        queries (world (sys c')) = S (queries (world (sys c)))
        /\ lock c' = false).
Proof.
  split.
  - intros s calls schedule c Hrun.
    pose proof (run_invariant _ _ _ (start_invariant s calls) Hrun) as Hinv.
    unfold lock_invariant in Hinv. destruct (lock c); split; (lia || congruence).
  - intros c i current_time c' Hi Hexec. simpl in Hexec. rewrite Hi in Hexec.
    injection Hexec as <-. simpl. split; [apply queries_rebuild|reflexivity].
Qed.

End Threads.

Arguments sys {Vectorizer} c.
Arguments lock {Vectorizer} c.
Arguments threads {Vectorizer} c.
Arguments holders {Vectorizer} c.
Arguments fresh {Vectorizer} s.
Arguments start {Vectorizer} s calls.

(** ** Two callers on the small catalog *)

Definition run_threads :=
  run Text.nltk_missing Text.identity_stemmer unit unit_vectors all_ones
    (fun m => all_ones m m).

Definition exec_thread :=
  exec Text.nltk_missing Text.identity_stemmer unit unit_vectors all_ones
    (fun m => all_ones m m).

(** Two threads call [initialize_model()] on the engine that was never
    built. *)
Definition two_callers : Config unit := start fresh_engine [false; false].

(** Both pass the test, the first rebuilds, the second gets the lock. *)
Definition second_gets_lock : list action :=
  [Test 0; Test 1; Acquire 0; Rebuild 0; Acquire 1].

(** The configuration after that schedule, and after the second thread
    has run the region too. *)
Definition second_in_region : Config unit :=
  default two_callers (run_threads second_gets_lock two_callers).

Definition both_returned : Config unit :=
  default two_callers (run_threads (second_gets_lock ++ [Rebuild 1]) two_callers).

(** C4, as stated, fails.  The second thread waited while the first one
    committed a snapshot.  It enters the region with a fresh cache and queries
    the store again: two rebuilds for one expiry. *)
Lemma waiting_caller_rebuilds_again :
  run_threads second_gets_lock two_callers = Some second_in_region
  /\ threads second_in_region !! 1%nat = Some (Holding 160)
  /\ fresh (sys second_in_region)
  /\ queries (world (sys second_in_region)) = 1%nat
  /\ exec_thread (Rebuild 1) second_in_region = Some both_returned
  /\ queries (world (sys both_returned)) = 2%nat
  /\ threads both_returned = [Returned true; Returned true].
Proof. repeat split; vm_compute; reflexivity. Qed.

(** C4 on the two callers. *)
Lemma rebuilds_serialized_without_recheck_witness :
  ((holders both_returned <= 1)%nat
   /\ (lock both_returned = false -> holders both_returned = 0%nat))
  /\ (queries (world (sys both_returned)) = S (queries (world (sys second_in_region)))
      /\ lock both_returned = false).
Proof.
  pose proof (rebuilds_serialized_without_recheck Text.nltk_missing Text.identity_stemmer
                unit unit_vectors all_ones (fun m => all_ones m m)) as [Hserial Hagain].
  split.
  - apply (Hserial fresh_engine [false; false] (second_gets_lock ++ [Rebuild 1])).
    vm_compute. reflexivity.
  - apply (Hagain second_in_region 1%nat 160%Z both_returned).
    + vm_compute. reflexivity.
    + vm_compute. reflexivity.
Defined.

End Concurrent.

(** * The similarity matrix *)

Module Cosine.
Import Reals Lra.
#[local] Open Scope R_scope.

(** Modelled from the spec: [sklearn.metrics.pairwise.cosine_similarity],
    which [_calculate_similarity_matrix] calls and whose code is not part of
    the repository.  Section 4.3: the entry for the pair (i, j) is the dot
    product of the weighted vectors of records i and j divided by the product
    of their norms, and the undefined cases (a zero vector) yield 0.  Vectors
    are over the real numbers; rounding of floating-point arithmetic is not
    modelled. *)
Fixpoint dot (x y : list R) : R :=
  match x, y with
  | a :: x', b :: y' => a * b + dot x' y'
  | _, _ => 0
  end.

Definition norm (x : list R) : R := sqrt (dot x x).

Definition cosine (x y : list R) : R :=
  if Req_dec_T (norm x * norm y) 0 then 0 else dot x y / (norm x * norm y).

Definition cosine_similarity (X Y : list (list R)) : list (list R) :=
  (fun x => cosine x <$> Y) <$> X.

(** [_calculate_similarity_matrix]: both branches compute the similarity
    of the matrix with itself. *)
Definition _calculate_similarity_matrix (tfidf_matrix : list (list R)) : list (list R) :=
  cosine_similarity tfidf_matrix tfidf_matrix.

(** [similarity[i][j]], when both indices are in range. *)
Definition entry (m : list (list R)) (i j : nat) : option R :=
  row ← m !! i; row !! j.

(** A record whose terms all fell out of the vocabulary. *)
Definition null_vector (x : list R) : Prop := Forall (fun a => a = 0) x.

Lemma dot_comm x y : dot x y = dot y x.
Proof.
  revert y. induction x as [|a x IH]; intros [|b y]; simpl; try reflexivity.
  rewrite IH. ring.
Qed.

Lemma dot_self_nonneg x : 0 <= dot x x.
Proof.
  induction x as [|a x IH]; simpl; [lra|]. pose proof (Rle_0_sqr a) as H.
  unfold Rsqr in H. lra.
Qed.

Lemma dot_self_null x : dot x x = 0 <-> null_vector x.
Proof.
  unfold null_vector. induction x as [|a x IH]; simpl.
  - split; [constructor|reflexivity].
  - pose proof (Rle_0_sqr a) as Ha. unfold Rsqr in Ha.
    pose proof (dot_self_nonneg x) as Hx. split.
    + intros H. assert (Hx0 : dot x x = 0) by lra. assert (Ha0 : a * a = 0) by lra.
      constructor; [|now apply IH].
      destruct (Rmult_integral _ _ Ha0); assumption.
    + intros H. apply Forall_cons in H as [-> H]. apply IH in H. lra.
Qed.

Lemma cosine_comm x y : cosine x y = cosine y x.
Proof.
  unfold cosine. rewrite (Rmult_comm (norm y)), (dot_comm y). reflexivity.
Qed.

Lemma cosine_self x :
  cosine x x = if Req_dec_T (dot x x) 0 then 0 else 1.
Proof.
  unfold cosine, norm. rewrite sqrt_sqrt by apply dot_self_nonneg.
  destruct (Req_dec_T (dot x x) 0) as [_|Hne]; [reflexivity|]. now field.
Qed.

Lemma entry_similarity X i j :
  entry (_calculate_similarity_matrix X) i j
  = x ← X !! i; y ← X !! j; Some (cosine x y).
Proof.
  unfold entry, _calculate_similarity_matrix, cosine_similarity.
  rewrite list_lookup_fmap. destruct (X !! i) as [x|]; simpl; [|reflexivity].
  rewrite list_lookup_fmap. now destruct (X !! j).
Qed.

(** C9, as the specification of the similarity has it.  The matrix has
    one row per record and one column per record in each row, and it is
    symmetric.  A diagonal entry is 1 for a record with a non-null vector and
    0 for a record with a null vector. *)
Theorem similarity_matrix_square_symmetric (X : list (list R)) :
  (length (_calculate_similarity_matrix X) = length X
   /\ Forall (fun row => length row = length X) (_calculate_similarity_matrix X))
  /\ (forall i j,
        entry (_calculate_similarity_matrix X) i j
        = entry (_calculate_similarity_matrix X) j i)
  /\ (forall i x, X !! i = Some x ->
        (~ null_vector x -> entry (_calculate_similarity_matrix X) i i = Some 1)
        /\ (null_vector x -> entry (_calculate_similarity_matrix X) i i = Some 0)).
Proof.
  split; [|split].
  - unfold _calculate_similarity_matrix, cosine_similarity. split.
    + apply length_fmap.
    + apply Forall_fmap, Forall_forall. intros x _. simpl. apply length_fmap.
  - intros i j. rewrite !entry_similarity.
    destruct (X !! i) as [x|], (X !! j) as [y|]; simpl; try reflexivity.
    now rewrite cosine_comm.
  - intros i x Hx. rewrite entry_similarity, Hx. simpl. rewrite cosine_self.
    destruct (Req_dec_T (dot x x) 0) as [H0|Hne].
    + apply dot_self_null in H0. split; [contradiction|reflexivity].
    + split; [reflexivity|]. intros Hnull. apply dot_self_null in Hnull. contradiction.
Qed.

(** The vectors of the small catalog: the first two records have the same
    weights, the third has none. *)
Definition catalog_vectors : list (list R) := [ [1; 2]; [1; 2]; [0; 0] ].

(** C9, as stated, fails: the diagonal entry of the third record is 0. *)
Lemma null_record_diagonal :
  catalog_vectors !! 2%nat = Some [0; 0]
  /\ entry (_calculate_similarity_matrix catalog_vectors) 2 2 = Some 0
  /\ (0 : R) <> 1.
Proof.
  split; [reflexivity|]. split; [|lra].
  rewrite entry_similarity. simpl. rewrite cosine_self. simpl.
  destruct (Req_dec_T _ 0) as [_|Hne]; [reflexivity|]. exfalso. apply Hne. lra.
Qed.

(** C9 on the vectors of the small catalog. *)
Lemma similarity_matrix_square_symmetric_witness :
  entry (_calculate_similarity_matrix catalog_vectors) 0 0 = Some 1
  /\ entry (_calculate_similarity_matrix catalog_vectors) 2 2 = Some 0.
Proof.
  destruct (similarity_matrix_square_symmetric catalog_vectors) as (_ & _ & Hdiag).
  split.
  - apply (Hdiag 0%nat [1; 2]); [reflexivity|].
    intros H. apply Forall_cons in H as [H _]. lra.
  - apply (Hdiag 2%nat [0; 0]); [reflexivity|]. repeat constructor.
Defined.

End Cosine.
